(** * A shallow embedding of the RAG pipeline core

    Chunking ([app/chunking.py]), the embedding cache
    ([app/embedding_service.py]), the rerankers ([app/reranker.py]) and the
    query path of the orchestrator ([app/pipeline.py]).

    Python values are modelled as follows.
    - [str] is a list of Unicode code points, so that [len] counts
      characters the way Python does.
    - [int] is [Z]; indices that the code only ever counts up from zero
      are [nat].
    - a [dict] is a [gmap]; [dict.get] is lookup.
    - a float is kept as its bit pattern: the code stores and copies
      floats, it never computes with them.
    - calls to external collaborators (embedding model, vector index,
      cross-encoder, chat model, metrics database) are explicit
      parameters; a call that raises is the result [None] or [Raise]. *)

From Stdlib Require Import ZArith NArith List Lia Bool Ascii String Decimal.
From Stdlib Require Import DecimalNat.
From stdpp Require Import base option list gmap.

Local Open Scope Z_scope.

(** ** Python strings *)

Abbreviation char := N (only parsing).
Abbreviation str := (list N) (only parsing).

Definition len {A} (l : list A) : Z := Z.of_nat (length l).

(** An ASCII literal as a Python string. *)
Definition py (s : string) : str := map N_of_ascii (list_ascii_of_string s).

(** [str.isspace] on one character (the table of CPython's
    [_PyUnicode_IsWhitespace]). *)
Definition is_space (c : char) : bool :=
  ((9 <=? c) && (c <=? 13) || (28 <=? c) && (c <=? 32)
   || (c =? 133) || (c =? 160) || (c =? 5760)
   || (8192 <=? c) && (c <=? 8202)
   || (c =? 8232) || (c =? 8233) || (c =? 8239) || (c =? 8287)
   || (c =? 12288))%N.

Fixpoint lstrip (s : str) : str :=
  match s with
  | [] => []
  | c :: rest => if is_space c then lstrip rest else s
  end.

Definition rstrip (s : str) : str := rev (lstrip (rev s)).

Definition strip (s : str) : str := rstrip (lstrip s).

(** Truthiness of a Python string. *)
Definition truthy (s : str) : bool :=
  match s with [] => false | _ => true end.

(** [f"{n:05d}"] for a non-negative [n]. *)
Fixpoint uint_chars (u : Decimal.uint) : str :=
  match u with
  | Nil => []
  | D0 u => 48%N :: uint_chars u
  | D1 u => 49%N :: uint_chars u
  | D2 u => 50%N :: uint_chars u
  | D3 u => 51%N :: uint_chars u
  | D4 u => 52%N :: uint_chars u
  | D5 u => 53%N :: uint_chars u
  | D6 u => 54%N :: uint_chars u
  | D7 u => 55%N :: uint_chars u
  | D8 u => 56%N :: uint_chars u
  | D9 u => 57%N :: uint_chars u
  end.

Definition format_05d (n : nat) : str :=
  let digits := uint_chars (Nat.to_uint n) in
  repeat 48%N (5 - length digits)%nat ++ digits.

(** ** app/types.py *)

(** Values stored in metadata dictionaries. *)
Inductive MetaVal :=
| MInt (z : Z)
| MStr (s : str)
| MFloat (bits : Z)
| MNone.

Record RawDocument := {
  doc_id : str;
  text : str;
  source_path : str;
  metadata : gmap str MetaVal
}.

Record DocumentChunk := {
  chunk_doc_id : str;
  chunk_id : str;
  chunk_text : str;
  start_index : Z;
  end_index : Z;
  chunk_metadata : gmap str MetaVal
}.

(** ** app/chunking.py *)

(** The characters of [SENTENCE_SEP_PATTERN]: 。 ！ ？ ? ! *)
Definition is_terminator (c : char) : bool :=
  ((c =? 12290) || (c =? 65281) || (c =? 65311) || (c =? 63) || (c =? 33))%N.

(** [SENTENCE_SEP_PATTERN.split(text)]: the pattern is a look-behind that
    matches the empty string after every terminator, so the text is cut
    after each terminator; the last piece is what follows the last
    terminator (the empty string when the text ends with one). *)
Fixpoint sep_split (s : str) : list str :=
  match s with
  | [] => [[]]
  | c :: rest =>
      if is_terminator c then [c] :: sep_split rest
      else match sep_split rest with
           | p :: ps => (c :: p) :: ps
           | [] => [[c]]
           end
  end.

(** [SENTENCE_SEP_PATTERN.search(part)] as a truth value: there is a
    position preceded by a terminator. *)
Definition sep_search (part : str) : bool := existsb is_terminator part.

(** One iteration of the loop of [_split_sentences] over
    [(sentences, buffer)]. *)
Definition split_step (st : list str * str) (part : str) : list str * str :=
  let '(sentences, buffer) := st in
  if truthy (strip part) then
    let buffer := buffer ++ part in
    if sep_search part then (sentences ++ [strip buffer], [])
    else (sentences, buffer)
  else st.

Definition _split_sentences (s : str) : list str :=
  let '(sentences, buffer) := fold_left split_step (sep_split s) ([], []) in
  let sentences :=
    if truthy (strip buffer) then sentences ++ [strip buffer] else sentences in
  match sentences with
  | [] => [s]
  | _ => sentences
  end.

Definition sum_len (l : list str) : Z := fold_right (fun s acc => len s + acc) 0 l.

(** The [while current_chunk and current_length > overlap] loop. *)
Fixpoint shrink (overlap : Z) (current_chunk : list str) (current_length : Z)
  : list str * Z :=
  match current_chunk with
  | [] => ([], current_length)
  | removed :: rest =>
      if overlap <? current_length
      then shrink overlap rest (current_length - len removed)
      else (current_chunk, current_length)
  end.

Record ChunkState := {
  chunks : list DocumentChunk;
  text_cursor : Z;
  chunk_index : nat;
  current_chunk : list str;
  current_length : Z
}.

(** The chunk appended at both places of [chunk_document]. *)
Definition make_chunk (document : RawDocument) (st : ChunkState) : DocumentChunk :=
  let chunk_text := strip (concat (current_chunk st)) in
  let start := Z.max 0 (text_cursor st - current_length st) in
  let end_ := start + len chunk_text in
  {| chunk_doc_id := doc_id document;
     chunk_id := doc_id document ++ py "_" ++ format_05d (chunk_index st);
     chunk_text := chunk_text;
     start_index := start;
     end_index := end_;
     chunk_metadata :=
       <[py "chunk_index" := MInt (Z.of_nat (chunk_index st))]> (metadata document) |}.

(** The body of [for sentence in sentences]. *)
Definition chunk_step (document : RawDocument) (chunk_size overlap : Z)
    (st : ChunkState) (sentence : str) : ChunkState :=
  let sentence_length := len sentence in
  let st :=
    if (chunk_size <? current_length st + sentence_length)
       && negb (bool_decide (current_chunk st = []))
    then
      let '(kept, _) := shrink overlap (current_chunk st) (current_length st) in
      {| chunks := chunks st ++ [make_chunk document st];
         text_cursor := text_cursor st;
         chunk_index := S (chunk_index st);
         current_chunk := kept;
         current_length := sum_len kept |}
    else st in
  {| chunks := chunks st;
     text_cursor := text_cursor st + sentence_length;
     chunk_index := chunk_index st;
     current_chunk := current_chunk st ++ [sentence];
     current_length := current_length st + sentence_length |}.

Definition chunk_init : ChunkState :=
  {| chunks := []; text_cursor := 0; chunk_index := 0%nat;
     current_chunk := []; current_length := 0 |}.

Definition chunk_document (document : RawDocument) (chunk_size overlap : Z)
  : list DocumentChunk :=
  let sentences := _split_sentences (text document) in
  match sentences with
  | [] => []
  | _ =>
      let st := fold_left (chunk_step document chunk_size overlap) sentences chunk_init in
      match current_chunk st with
      | [] => chunks st
      | _ => chunks st ++ [make_chunk document st]
      end
  end.

Definition chunk_corpus (documents : list RawDocument) (chunk_size overlap : Z)
  : list DocumentChunk :=
  concat (map (fun document => chunk_document document chunk_size overlap) documents).

(** The two-sentence text 天气很好。我们去公园。 *)
Definition weather_text : str :=
  [22825; 27668; 24456; 22909; 12290; 25105; 20204; 21435; 20844; 22253; 12290]%N.

Definition weather_doc (d : str) (m : gmap str MetaVal) : RawDocument :=
  {| doc_id := d; text := weather_text; source_path := []; metadata := m |}.


(** ** Exceptions and results of calls *)

Inductive exn :=
| ValueError
| IndexError
| TypeError
| ExternalError.

Inductive outcome (A : Type) :=
| Return (a : A)
| Raise (e : exn).
Arguments Return {A} a.
Arguments Raise {A} e.

(** ** app/embedding_service.py *)

(** One embedding: a row of float32 bit patterns. *)
Abbreviation vec := (list Z) (only parsing).

(** The fields of [EmbeddingService] that [embed_texts] reads and writes:
    [self._cache], keyed by the hex digest of the text, and
    [self._cache_dirty]. *)
Record EmbeddingService := {
  _cache : gmap str (list Z);
  _cache_dirty : bool
}.

(** [_save_cache]; [write_ok] tells whether writing the snapshot file
    succeeds (a failure is logged and swallowed). *)
Definition _save_cache (write_ok : bool) (svc : EmbeddingService) : EmbeddingService :=
  if negb (_cache_dirty svc) then svc
  else if write_ok then {| _cache := _cache svc; _cache_dirty := false |}
  else svc.

(** The first loop of [embed_texts], from index [idx] on: the list
    [embeddings] (with [None] at a miss), [missing_texts] and
    [missing_indices]. *)
Fixpoint read_cache (_hash_text : str -> str) (cache : gmap str (list Z))
    (idx : nat) (texts_list : list str)
  : list (option (list Z)) * list str * list nat :=
  match texts_list with
  | [] => ([], [], [])
  | text :: rest =>
      let '(embeddings, missing_texts, missing_indices) :=
        read_cache _hash_text cache (S idx) rest in
      match cache !! _hash_text text with
      | Some cached => (Some cached :: embeddings, missing_texts, missing_indices)
      | None => (None :: embeddings, text :: missing_texts, idx :: missing_indices)
      end
  end.

(** The second loop, [for offset, embed in enumerate(new_embeds)], from
    [offset] on.  [missing_indices[offset]] raises [IndexError] when the
    model returned more rows than it was given texts; the entries written
    before that stay in the cache. *)
Fixpoint write_cache (_hash_text : str -> str) (texts_list : list str)
    (missing_indices : list nat) (offset : nat) (new_embeds : list (list Z))
    (embeddings : list (option (list Z))) (svc : EmbeddingService)
  : outcome (list (option (list Z))) * EmbeddingService :=
  match new_embeds with
  | [] => (Return embeddings, svc)
  | embed :: rest =>
      match missing_indices !! offset with
      | None => (Raise IndexError, svc)
      | Some target_idx =>
          match texts_list !! target_idx with
          | None => (Raise IndexError, svc)
          | Some text =>
              write_cache _hash_text texts_list missing_indices (S offset) rest
                (<[target_idx := Some embed]> embeddings)
                {| _cache := <[_hash_text text := embed]> (_cache svc);
                   _cache_dirty := true |}
          end
      end
  end.

(** [np.atleast_2d(embedding)]: a float row of width [w] becomes a
    [(1, w)] array; a [None] that the second loop did not replace becomes
    the [(1, 1)] object array [[None]]. *)
Definition atleast_2d (embedding : option (list Z)) : list (option Z) :=
  match embedding with
  | Some row => map Some row
  | None => [None]
  end.

Definition same_width {A} (rows : list (list A)) : bool :=
  match rows with
  | [] => false
  | row :: rest => forallb (fun r => Nat.eqb (length r) (length row)) rest
  end.

(** [np.vstack(embeddings)], which concatenates the [atleast_2d] of its
    arguments: they must all have one width, and there must be at least
    one.  An entry of the result is a float, or [None] in the object array
    that numpy builds when a [None] is stacked (next to rows of width one,
    or to none). *)
Definition vstack (embeddings : list (option (list Z)))
  : outcome (list (list (option Z))) :=
  if same_width (map atleast_2d embeddings) then Return (map atleast_2d embeddings)
  else Raise ValueError.

(** The array of floats with the given rows. *)
Definition float_rows (rows : list (list Z)) : list (list (option Z)) :=
  map (map Some) rows.

(** What one call of [embed_texts] does: its result, the service
    afterwards, and the batches passed to the model ([_embed_batch]), in
    order. *)
Record EmbedRun := {
  embed_result : outcome (list (list (option Z)));
  embed_service : EmbeddingService;
  model_calls : list (list str)
}.

(** [embed_texts].  [encode] is the model behind [_embed_batch] ([None]
    when loading or encoding raises).  For the empty list the code
    evaluates [np.array([]).reshape(0, -1)], which numpy rejects: the
    unknown dimension of an empty array cannot be inferred. *)
Definition embed_texts (_hash_text : str -> str)
    (encode : list str -> option (list (list Z))) (write_ok : bool)
    (svc : EmbeddingService) (texts : list str) : EmbedRun :=
  match texts with
  | [] => {| embed_result := Raise ValueError; embed_service := svc; model_calls := [] |}
  | _ =>
      let '(embeddings, missing_texts, missing_indices) :=
        read_cache _hash_text (_cache svc) 0 texts in
      match missing_texts with
      | [] => {| embed_result := vstack embeddings; embed_service := svc;
                 model_calls := [] |}
      | _ =>
          match encode missing_texts with
          | None => {| embed_result := Raise ExternalError; embed_service := svc;
                       model_calls := [missing_texts] |}
          | Some new_embeds =>
              match write_cache _hash_text texts missing_indices 0 new_embeds
                      embeddings svc with
              | (Raise e, svc') =>
                  {| embed_result := Raise e; embed_service := svc';
                     model_calls := [missing_texts] |}
              | (Return embeddings', svc') =>
                  {| embed_result := vstack embeddings';
                     embed_service := _save_cache write_ok svc';
                     model_calls := [missing_texts] |}
              end
          end
      end
  end.

(** A model double that numbers the rows of each batch: row [i] is [[i]]. *)
Definition counting_model (texts : list str) : option (list (list Z)) :=
  Some (map (fun i => [Z.of_nat i]) (seq 0 (length texts))).

(** A model that embeds each text on its own, as its list of code points
    padded to width 4. *)
Definition pointwise_model (texts : list str) : option (list (list Z)) :=
  Some (map (fun t => take 4 (map Z.of_N t ++ [0; 0; 0; 0])) texts).

Definition empty_service : EmbeddingService :=
  {| _cache := ∅; _cache_dirty := false |}.


(** ** app/reranker.py *)

Record RetrievalResult := {
  chunk : DocumentChunk;
  score : Z
}.

(** [RetrievalResult] objects are mutated in place ([metadata["score"]],
    the rank annotations) and compared by identity, so a sequence of
    results is a list of references into a store.  Each result owns its
    chunk and its metadata dictionary. *)
Abbreviation ref := nat (only parsing).
Abbreviation Store := (nat -> RetrievalResult) (only parsing).

Definition text_of (h : nat -> RetrievalResult) (r : nat) : str :=
  chunk_text (chunk (h r)).

(** [item.chunk.metadata[key] = v] *)
Definition set_meta (h : nat -> RetrievalResult) (item : nat) (key : str) (v : MetaVal)
  : nat -> RetrievalResult :=
  fun r =>
    if Nat.eqb r item then
      let c := chunk (h r) in
      {| chunk := {| chunk_doc_id := chunk_doc_id c; chunk_id := chunk_id c;
                     chunk_text := chunk_text c; start_index := start_index c;
                     end_index := end_index c;
                     chunk_metadata := <[key := v]> (chunk_metadata c) |};
         score := score (h r) |}
    else h r.

(** [l[:k]] *)
Definition slice_to {A} (l : list A) (k : Z) : list A :=
  if 0 <=? k then take (Z.to_nat k) l
  else take (length l - Z.to_nat (- k))%nat l.

(** One dictionary returned by the cross-encoder, with the keys that
    [rerank] reads. *)
Record RankResult := {
  rr_score : option Z;
  rr_result_index : option Z;
  rr_content : option str;
  rr_text : option str
}.

(** [result.get("content") or result.get("text")] *)
Definition result_text (result : RankResult) : option str :=
  match rr_content result with
  | Some c => if truthy c then Some c else rr_text result
  | None => rr_text result
  end.

Definition opt_truthy (o : option str) : bool :=
  match o with
  | Some s => truthy s
  | None => false
  end.

(** [passages.index(text)], [None] for [ValueError]. *)
Fixpoint list_index (t : str) (passages : list str) : option nat :=
  match passages with
  | [] => None
  | p :: rest =>
      if bool_decide (p = t) then Some 0%nat
      else match list_index t rest with
           | Some i => Some (S i)
           | None => None
           end
  end.

(** [mapping.get(index)] for [mapping = {idx: item for idx, item in
    enumerate(candidates)}]. *)
Definition mapping_get (candidates : list nat) (index : Z) : option nat :=
  if index <? 0 then None else candidates !! Z.to_nat index.

(** [item in ranked]: some element is the same object or equal to it;
    [eqv] is [RetrievalResult.__eq__] on the current values. *)
Definition py_in (eqv : RetrievalResult -> RetrievalResult -> bool)
    (h : nat -> RetrievalResult) (item : nat) (ranked : list nat) : bool :=
  existsb (fun x => Nat.eqb x item || eqv (h x) (h item)) ranked.

Record RankState := {
  ranked : list nat;
  seen_texts : list str;
  store : nat -> RetrievalResult
}.

(** The body of [for result in results] in [ColBERTReranker.rerank]. *)
Definition colbert_step (candidates : list nat) (passages : list str)
    (st : RankState) (result : RankResult) : RankState :=
  let score := default 0 (rr_score result) in
  let text := result_text result in
  let index :=
    match rr_result_index result with
    | Some i => Some i
    | None =>
        if opt_truthy text
        then Z.of_nat <$> list_index (default [] text) passages
        else None
    end in
  match index with
  | None => st
  | Some index =>
      match mapping_get candidates index with
      | None => st
      | Some item =>
          if opt_truthy text && bool_decide (default [] text ∈ seen_texts st)
          then st
          else
            {| ranked := ranked st ++ [item];
               seen_texts :=
                 if opt_truthy text then default [] text :: seen_texts st
                 else seen_texts st;
               store := set_meta (store st) item (py "score") (MFloat score) |}
      end
  end.

(** [ColBERTReranker.rerank], given what the cross-encoder returned. *)
Definition colbert_rerank (eqv : RetrievalResult -> RetrievalResult -> bool)
    (results : list RankResult) (h : nat -> RetrievalResult)
    (candidates : list nat) (top_k : Z) : list nat * (nat -> RetrievalResult) :=
  let passages := map (text_of h) candidates in
  let st := fold_left (colbert_step candidates passages) results
              {| ranked := []; seen_texts := []; store := h |} in
  let ranked :=
    if len (ranked st) <? top_k then
      let remaining :=
        filter (fun item => negb (py_in eqv (store st) item (ranked st))) candidates in
      ranked st ++ take (Z.to_nat (top_k - len (ranked st))) remaining
    else ranked st in
  (slice_to ranked top_k, store st).

(** The two reranker variants; the cross-encoder is its [rerank] method
    ([None] when the call raises). *)
Inductive Reranker :=
| NoOpReranker
| ColBERTReranker (model : str -> list str -> Z -> option (list RankResult)).

Definition is_colbert (rk : Reranker) : bool :=
  match rk with
  | NoOpReranker => false
  | ColBERTReranker _ => true
  end.

(** [reranker.rerank(query, candidates, top_k)]: the selected results and
    the store afterwards. *)
Definition rerank (eqv : RetrievalResult -> RetrievalResult -> bool) (rk : Reranker)
    (h : nat -> RetrievalResult) (query : str) (candidates : list nat) (top_k : Z)
  : outcome (list nat * (nat -> RetrievalResult)) :=
  match rk with
  | NoOpReranker => Return (slice_to candidates top_k, h)
  | ColBERTReranker model =>
      match model query (map (text_of h) candidates) top_k with
      | None => Raise ExternalError
      | Some results => Return (colbert_rerank eqv results h candidates top_k)
      end
  end.

(** ** app/retriever.py *)

(** A document of the vector index: passage text and metadata. *)
Record Doc := {
  page_content : str;
  doc_metadata : gmap str MetaVal
}.

(** [metadata.get(key, "")] stored in a string field. *)
Definition meta_str (m : gmap str MetaVal) (key : str) : str :=
  match m !! key with
  | Some (MStr s) => s
  | _ => []
  end.

(** [int(metadata.get(key, 0))]; the index holds the integers written by
    [build_index], [int(None)] raises. *)
Definition meta_int (m : gmap str MetaVal) (key : str) : outcome Z :=
  match m !! key with
  | None => Return 0
  | Some (MInt z) => Return z
  | Some _ => Raise TypeError
  end.

(** The body of [for doc, score in documents_with_scores]. *)
Definition wrap_hit (hit : Doc * Z) : outcome RetrievalResult :=
  let '(doc, score) := hit in
  let metadata := <[py "score" := MFloat score]> (doc_metadata doc) in
  match meta_int metadata (py "start_index") with
  | Raise e => Raise e
  | Return start =>
      match meta_int metadata (py "end_index") with
      | Raise e => Raise e
      | Return end_ =>
          Return {| chunk := {| chunk_doc_id := meta_str metadata (py "doc_id");
                                chunk_id := meta_str metadata (py "chunk_id");
                                chunk_text := page_content doc;
                                start_index := start;
                                end_index := end_;
                                chunk_metadata := metadata |};
                    score := score |}
      end
  end.

Fixpoint wrap_hits (hits : list (Doc * Z)) : outcome (list RetrievalResult) :=
  match hits with
  | [] => Return []
  | hit :: rest =>
      match wrap_hit hit with
      | Raise e => Raise e
      | Return r =>
          match wrap_hits rest with
          | Raise e => Raise e
          | Return rs => Return (r :: rs)
          end
      end
  end.

(** [Retriever(vector_store, top_k=top_k).retrieve(query)];
    [similarity_search_with_score] is the vector index ([None] when it
    raises, as it does when no index was built). *)
Definition retrieve (similarity_search_with_score : str -> Z -> option (list (Doc * Z)))
    (top_k : Z) (query : str) : outcome (list RetrievalResult) :=
  match similarity_search_with_score query top_k with
  | None => Raise ExternalError
  | Some documents_with_scores => wrap_hits documents_with_scores
  end.

(** ** app/metrics.py and app/pipeline.py *)

Record Settings := {
  chunk_size : Z;
  chunk_overlap : Z;
  top_k : Z;
  rerank_top_k : Z
}.

Record MetricsRow := {
  row_query : str;
  row_latency_ms : Z;
  row_retrieval_ms : Z;
  row_generation_ms : Z;
  retrieved_k : Z;
  row_status : str
}.

Record ContextItem := {
  ctx_doc_id : str;
  ctx_chunk_id : str;
  ctx_text : str;
  ctx_metadata : gmap str MetaVal
}.

Record Answer := {
  answer_query : str;
  answer_text : str;
  citations : list (gmap str MetaVal);
  contexts : list ContextItem;
  latency_ms : Z
}.

(** The collaborators of one [answer] call: the vector index, the
    generator ([generate_answer] gives the answer text and the citations,
    [None] when building the generator or the chat call raises), the three
    measured durations, and whether the metrics insert succeeds. *)
Record World := {
  similarity_search_with_score : str -> Z -> option (list (Doc * Z));
  generate_answer : str -> list RetrievalResult -> option (str * list (gmap str MetaVal));
  measured_retrieval_ms : Z;
  measured_generation_ms : Z;
  measured_total_ms : Z;
  insert_ok : bool
}.

(** The calls that leave the pipeline, in the order they are made. *)
Inductive Event :=
| Search (query : str) (k : Z)
| CrossEncode (query : str) (passages : list str) (k : Z)
| Generate (query : str) (contexts : list RetrievalResult)
| RecordMetrics (row : MetricsRow).

(** [MetricsCollector.record]: never raises; the row is lost when the
    insert fails. *)
Definition record (ok : bool) (rows : list MetricsRow) (row : MetricsRow)
  : list MetricsRow :=
  if ok then rows ++ [row] else rows.

(** [top_k or self.settings.top_k] *)
Definition top_k_or (top_k : option Z) (default_top_k : Z) : Z :=
  match top_k with
  | Some k => if k =? 0 then default_top_k else k
  | None => default_top_k
  end.

(** The freshly built [retrieval_results] as a store: result [i] is
    object [i]. *)
Definition null_result : RetrievalResult :=
  {| chunk := {| chunk_doc_id := []; chunk_id := []; chunk_text := [];
                 start_index := 0; end_index := 0; chunk_metadata := ∅ |};
     score := 0 |}.

Definition store_of (results : list RetrievalResult) : nat -> RetrievalResult :=
  fun r => nth r results null_result.

(** [for idx, item in enumerate(items, start=idx): item.chunk.metadata[key] = idx] *)
Fixpoint annotate (key : str) (idx : nat) (items : list nat)
    (h : nat -> RetrievalResult) : nat -> RetrievalResult :=
  match items with
  | [] => h
  | item :: rest => annotate key (S idx) rest (set_meta h item key (MInt (Z.of_nat idx)))
  end.

Definition context_item (r : RetrievalResult) : ContextItem :=
  {| ctx_doc_id := chunk_doc_id (chunk r);
     ctx_chunk_id := chunk_id (chunk r);
     ctx_text := chunk_text (chunk r);
     ctx_metadata := chunk_metadata (chunk r) |}.

Record AnswerRun := {
  answer_result : outcome Answer;
  events : list Event;
  metrics_rows : list MetricsRow
}.

(** [RAGPipeline.answer(query, top_k=top_k)] with the metrics table
    holding [rows]. *)
Definition answer (eqv : RetrievalResult -> RetrievalResult -> bool) (w : World)
    (settings : Settings) (reranker : Reranker) (rows : list MetricsRow)
    (query : str) (requested_top_k : option Z) : AnswerRun :=
  if negb (truthy (strip query)) then
    {| answer_result := Raise ValueError; events := []; metrics_rows := rows |}
  else
    let final_k := top_k_or requested_top_k (top_k settings) in
    let retrieval_depth := Z.max (rerank_top_k settings) final_k in
    let ev := [Search query retrieval_depth] in
    match retrieve (similarity_search_with_score w) retrieval_depth query with
    | Raise e => {| answer_result := Raise e; events := ev; metrics_rows := rows |}
    | Return retrieval_results =>
        let candidates := seq 0 (length retrieval_results) in
        let h := annotate (py "retrieval_rank") 1 candidates (store_of retrieval_results) in
        let ev :=
          if is_colbert reranker
          then ev ++ [CrossEncode query (map (text_of h) candidates) final_k]
          else ev in
        match rerank eqv reranker h query candidates final_k with
        | Raise e => {| answer_result := Raise e; events := ev; metrics_rows := rows |}
        | Return (reranked_results, h) =>
            let h := annotate (py "rerank_rank") 1 reranked_results h in
            let passed := map h reranked_results in
            let ev := ev ++ [Generate query passed] in
            match generate_answer w query passed with
            | None =>
                {| answer_result := Raise ExternalError; events := ev;
                   metrics_rows := rows |}
            | Some (answer_text, citations) =>
                let row :=
                  {| row_query := query;
                     row_latency_ms := measured_total_ms w;
                     row_retrieval_ms := measured_retrieval_ms w;
                     row_generation_ms := measured_generation_ms w;
                     retrieved_k := len reranked_results;
                     row_status := py "success" |} in
                {| answer_result :=
                     Return {| answer_query := query;
                               answer_text := answer_text;
                               citations := citations;
                               contexts := map context_item passed;
                               latency_ms := measured_total_ms w |};
                   events := ev ++ [RecordMetrics row];
                   metrics_rows := record (insert_ok w) rows row |}
            end
        end
    end.

(** ** Sample data, loop invariants and auxiliary predicates *)

Definition sentence_one : str := [22825; 27668; 24456; 22909; 12290]%N.
Definition sentence_two : str := [25105; 20204; 21435; 20844; 22253; 12290]%N.

Definition empty_doc (d sp : str) (m : gmap str MetaVal) : RawDocument :=
  {| doc_id := d; text := []; source_path := sp; metadata := m |}.

(** A corpus of two documents. *)
Definition two_docs : list RawDocument :=
  [ {| doc_id := py "a"; text := weather_text; source_path := py "a.txt"; metadata := ∅ |};
    {| doc_id := py "b"; text := py "Hello there! How are you? Fine";
       source_path := py "b.txt"; metadata := ∅ |} ].

(** Reading back [f"{n:05d}"]. *)
Fixpoint chars_uint (s : str) : Decimal.uint :=
  match s with
  | [] => Nil
  | c :: rest =>
      let u := chars_uint rest in
      if (c =? 48)%N then D0 u else if (c =? 49)%N then D1 u
      else if (c =? 50)%N then D2 u else if (c =? 51)%N then D3 u
      else if (c =? 52)%N then D4 u else if (c =? 53)%N then D5 u
      else if (c =? 54)%N then D6 u else if (c =? 55)%N then D7 u
      else if (c =? 56)%N then D8 u else if (c =? 57)%N then D9 u
      else Nil
  end.

Definition is_digit (c : char) : bool := ((48 <=? c) && (c <=? 57))%N.

(** Offsets in production order never go back. *)
Definition nondecreasing (l : list Z) : Prop :=
  forall i j x y, (i <= j)%nat -> l !! i = Some x -> l !! j = Some y -> x <= y.

(** The identifiers of the first [n] chunks of document [d]. *)
Definition expected_ids (d : str) (n : nat) : list str :=
  map (fun i => d ++ py "_" ++ format_05d i) (seq 0 n).

(** What the loop of [chunk_document] maintains. *)
Record chunk_inv (document : RawDocument) (st : ChunkState) : Prop := {
  inv_length : current_length st = sum_len (current_chunk st);
  inv_window : 0 <= text_cursor st - current_length st;
  inv_bounds :
    Forall (fun c => start_index c <= end_index c <= text_cursor st
                     /\ start_index c <= text_cursor st - current_length st)
           (chunks st);
  inv_sorted : nondecreasing (map start_index (chunks st));
  inv_ids : map chunk_id (chunks st) = expected_ids (doc_id document) (chunk_index st)
}.

(** What the second loop of [embed_texts] maintains, for the cache [orig]
    the call started from. *)
Record cache_inv (_hash_text : str -> str) (orig : gmap str (list Z))
    (texts : list str) (embeddings : list (option (list Z)))
    (cache : gmap str (list Z)) : Prop := {
  ci_length : length embeddings = length texts;
  ci_cached : forall i t e,
    texts !! i = Some t -> embeddings !! i = Some (Some e) ->
    is_Some (cache !! _hash_text t);
  ci_source : forall k v,
    cache !! k = Some v ->
    orig !! k = Some v
    \/ exists j t, texts !! j = Some t /\ _hash_text t = k
                   /\ embeddings !! j = Some (Some v);
  ci_hits : forall i t v,
    texts !! i = Some t -> orig !! _hash_text t = Some v ->
    embeddings !! i = Some (Some v)
}.

(** A cross-encoder result names the text of the passage it refers to. *)
Definition carries_text (h : nat -> RetrievalResult) (candidates : list nat)
    (result : RankResult) : Prop :=
  exists t, result_text result = Some t /\ truthy t = true
            /\ forall i item, rr_result_index result = Some i ->
                 mapping_get candidates i = Some item -> text_of h item = t.

Definition reports_texts (rk : Reranker) (h : nat -> RetrievalResult) (query : str)
    (candidates : list nat) (top_k : Z) : Prop :=
  match rk with
  | NoOpReranker => True
  | ColBERTReranker model =>
      forall results, model query (map (text_of h) candidates) top_k = Some results ->
                      Forall (carries_text h candidates) results
  end.

(** What the loop of [ColBERTReranker.rerank] maintains. *)
Record rank_inv (h : nat -> RetrievalResult) (candidates : list nat)
    (st : RankState) : Prop := {
  ri_members : forall r, r ∈ ranked st -> r ∈ candidates;
  ri_text : forall r, text_of (store st) r = text_of h r
}.

Record rank_texts (h : nat -> RetrievalResult) (st : RankState) : Prop := {
  rt_nodup : NoDup (map (text_of h) (ranked st));
  rt_seen : forall r, r ∈ ranked st -> text_of h r ∈ seen_texts st
}.

(** Sample retrieval results. *)
Definition sample_result (cid txt : str) : RetrievalResult :=
  {| chunk := {| chunk_doc_id := py "d"; chunk_id := cid; chunk_text := txt;
                 start_index := 0; end_index := len txt; chunk_metadata := ∅ |};
     score := 0 |}.


(** Three results with different passage texts. *)
Definition xyz_store : nat -> RetrievalResult :=
  store_of [sample_result (py "d_00000") (py "x");
            sample_result (py "d_00001") (py "y");
            sample_result (py "d_00002") (py "z")].

(** A cross-encoder double: it ranks the passage "z" first, by index, and
    then "x", by text only. *)
Definition sample_cross_encoder (query : str) (passages : list str) (k : Z)
  : option (list RankResult) :=
  Some [ {| rr_score := Some 9; rr_result_index := Some 2;
            rr_content := Some (py "z"); rr_text := None |};
         {| rr_score := Some 5; rr_result_index := None;
            rr_content := Some (py "x"); rr_text := None |} ].

Definition is_search (e : Event) : bool :=
  match e with
  | Search _ _ => true
  | _ => false
  end.

(** A vector index double with four passages; it returns the first [k]. *)
Definition sample_index (query : str) (k : Z) : option (list (Doc * Z)) :=
  Some (slice_to
          [ ({| page_content := py "w"; doc_metadata := {[ py "doc_id" := MStr (py "d") ]} |}, 1);
            ({| page_content := py "x"; doc_metadata := ∅ |}, 2);
            ({| page_content := py "y"; doc_metadata := ∅ |}, 3);
            ({| page_content := py "z"; doc_metadata := ∅ |}, 4) ] k).

Definition sample_world : World :=
  {| similarity_search_with_score := sample_index;
     generate_answer := fun query contexts => Some (py "ok", []);
     measured_retrieval_ms := 1;
     measured_generation_ms := 2;
     measured_total_ms := 3;
     insert_ok := true |}.

Definition sample_settings : Settings :=
  {| chunk_size := 400; chunk_overlap := 80; top_k := 5; rerank_top_k := 12 |}.

Definition sample_run : AnswerRun :=
  answer (fun _ _ => false) sample_world sample_settings NoOpReranker []
    (py "why?") (Some 2).

Definition sample_answer : Answer :=
  match answer_result sample_run with
  | Return a => a
  | Raise _ =>
      {| answer_query := []; answer_text := []; citations := []; contexts := [];
         latency_ms := 0 |}
  end.

(** The world [w] with another vector index behind the retriever. *)
Definition with_index (w : World) (search : str -> Z -> option (list (Doc * Z)))
  : World :=
  {| similarity_search_with_score := search;
     generate_answer := generate_answer w;
     measured_retrieval_ms := measured_retrieval_ms w;
     measured_generation_ms := measured_generation_ms w;
     measured_total_ms := measured_total_ms w;
     insert_ok := insert_ok w |}.

(** An index that answers (with no passage) a search for exactly [depth]
    candidates and fails on a search for any other number. *)
Definition index_at (depth : Z) (query : str) (k : Z) : option (list (Doc * Z)) :=
  if k =? depth then Some [] else None.

(** Settings with [TOP_K=20] and the default [RERANK_TOP_K=12]. *)
Definition wide_settings : Settings :=
  {| chunk_size := 400; chunk_overlap := 80; top_k := 20; rerank_top_k := 12 |}.

(** The pieces between terminators that are not blank, each stripped. *)
Definition stripped_pieces (s : str) : list str :=
  map strip (filter (fun part => truthy (strip part)) (sep_split s)).

(** Chunk [c] holds the consecutive sentences [w] of [all]. *)
Definition is_window (all : list str) (c : DocumentChunk) (w : list str) : Prop :=
  exists pre post, all = pre ++ w ++ post /\ chunk_text c = strip (concat w).

(** A later chunk starts at most [overlap] before the end of an earlier one. *)
Definition spaced (overlap : Z) (l : list DocumentChunk) : Prop :=
  forall i j ci cj, (i < j)%nat -> l !! i = Some ci -> l !! j = Some cj ->
                    end_index ci - overlap <= start_index cj.

(** What the loop of [chunk_document] maintains about the sentences
    [processed] so far. *)
Record window_inv (document : RawDocument) (processed : list str)
    (st : ChunkState) : Prop := {
  wi_suffix : exists pre, processed = pre ++ current_chunk st;
  wi_chunks : Forall (fun c => exists w, w <> [] /\ is_window processed c w) (chunks st);
  wi_cover : forall s, s ∈ processed ->
               s ∈ current_chunk st
               \/ exists c w, c ∈ chunks st /\ is_window processed c w /\ s ∈ w;
  wi_index : length (chunks st) = chunk_index st;
  wi_fields : forall i c, chunks st !! i = Some c ->
                chunk_doc_id c = doc_id document
                /\ chunk_id c = doc_id document ++ py "_" ++ format_05d i
                /\ chunk_metadata c
                   = <[py "chunk_index" := MInt (Z.of_nat i)]> (metadata document)
}.

Record overlap_inv (overlap : Z) (st : ChunkState) : Prop := {
  oi_spaced : spaced overlap (chunks st);
  oi_last : Forall (fun c => end_index c - overlap
                             <= text_cursor st - current_length st) (chunks st)
}.

(** The texts of a batch that the cache does not hold, in order. *)
Definition uncached (_hash_text : str -> str) (cache : gmap str (list Z))
    (texts : list str) : list str :=
  filter (fun t => cache !! _hash_text t = None) texts.

(** What one call of [embed_query] does. *)
Record QueryRun := {
  query_result : outcome (list (option Z));
  query_service : EmbeddingService;
  query_calls : list (list str)
}.

(** [embed_query]: [self.embed_texts([query])[0]]. *)
Definition embed_query (_hash_text : str -> str)
    (encode : list str -> option (list (list Z))) (write_ok : bool)
    (svc : EmbeddingService) (query : str) : QueryRun :=
  let run := embed_texts _hash_text encode write_ok svc [query] in
  {| query_result :=
       match embed_result run with
       | Return rows =>
           match rows with
           | row :: _ => Return row
           | [] => Raise IndexError
           end
       | Raise e => Raise e
       end;
     query_service := embed_service run;
     query_calls := model_calls run |}.

(** A model double that returns a single row of width one, whatever the
    batch. *)
Definition short_model (texts : list str) : option (list (list Z)) :=
  Some [[5]].

(** A model double that returns one row too many. *)
Definition overlong_model (texts : list str) : option (list (list Z)) :=
  Some (map (fun i => [Z.of_nat i]) (seq 0 (S (length texts)))).

(** A service that already holds the vector of "a". *)
Definition warm_service : EmbeddingService :=
  {| _cache := {[ py "a" := [7; 7; 7; 7] ]}; _cache_dirty := false |}.

(** A cross-encoder double that returns no result. *)
Definition silent_cross_encoder (query : str) (passages : list str) (k : Z)
  : option (list RankResult) := Some [].

(** Two results agree except for the metadata entry ["score"]. *)
Definition same_but_score (x x' : RetrievalResult) : Prop :=
  chunk_doc_id (chunk x') = chunk_doc_id (chunk x)
  /\ chunk_id (chunk x') = chunk_id (chunk x)
  /\ chunk_text (chunk x') = chunk_text (chunk x)
  /\ start_index (chunk x') = start_index (chunk x)
  /\ end_index (chunk x') = end_index (chunk x)
  /\ score x' = score x
  /\ forall key, key <> py "score" ->
       chunk_metadata (chunk x') !! key = chunk_metadata (chunk x) !! key.

(** ** app/vector_store.py *)

(** [metadata.get(key)]: [None] when the key is absent. *)
Definition meta_get (m : gmap str MetaVal) (key : str) : MetaVal :=
  default MNone (m !! key).

(** The [Document] that [build_index] makes of a chunk. *)
Definition index_document (c : DocumentChunk) : Doc :=
  {| page_content := chunk_text c;
     doc_metadata :=
       <[py "end_index" := MInt (end_index c)]>
         (<[py "start_index" := MInt (start_index c)]>
            (<[py "source_name" := meta_get (chunk_metadata c) (py "source_name")]>
               (<[py "source" := meta_get (chunk_metadata c) (py "source_path")]>
                  (<[py "chunk_id" := MStr (chunk_id c)]>
                     (<[py "doc_id" := MStr (chunk_doc_id c)]> ∅))))) |}.

(** ** app/metrics.py: reading the table *)

(** [MetricsCollector.recent(limit)] on the rows in insertion order:
    [ORDER BY id DESC LIMIT ?], where SQLite takes a negative limit as no
    limit. *)
Definition recent (limit : Z) (rows : list MetricsRow) : list MetricsRow :=
  if limit <? 0 then rev rows else take (Z.to_nat limit) (rev rows).


Definition is_record (e : Event) : bool :=
  match e with
  | RecordMetrics _ => true
  | _ => false
  end.

(** ** app/pipeline.py: ingestion *)

Inductive IngestResult :=
| Ingested (chunks : list DocumentChunk)
| NoDocumentsFound
| ExportFailed
| NoChunksProduced
| BuildIndexFailed.

(** [RAGPipeline.ingest], given the documents that [load_documents] read,
    whether [export_documents] can write its file, and whether
    [build_index] succeeds on the chunks. *)
Definition ingest (settings : Settings) (documents : list RawDocument)
    (export_ok : bool) (build_index_ok : list DocumentChunk -> bool) : IngestResult :=
  match documents with
  | [] => NoDocumentsFound
  | _ =>
      if negb export_ok then ExportFailed
      else
        let chunks :=
          chunk_corpus documents (chunk_size settings) (chunk_overlap settings) in
        match chunks with
        | [] => NoChunksProduced
        | _ => if build_index_ok chunks then Ingested chunks else BuildIndexFailed
        end
  end.

(** ** app/generator.py: the citations *)

(** Truthiness of a metadata value; a float is false when it is zero
    (of either sign, in binary64). *)
Definition meta_truthy (v : MetaVal) : bool :=
  match v with
  | MInt z => negb (z =? 0)
  | MStr s => truthy s
  | MFloat bits => negb ((bits =? 0) || (bits =? 2 ^ 63))
  | MNone => false
  end.

(** [a or b] *)
Definition meta_or (a b : MetaVal) : MetaVal := if meta_truthy a then a else b.

(** [f"{idx}"] for a non-negative [idx]. *)
Definition decimal (n : nat) : str := uint_chars (Nat.to_uint n).

(** One dictionary appended to [citations] in [generate_answer]. *)
Definition citation (idx : nat) (result : RetrievalResult) : gmap str MetaVal :=
  let metadata := chunk_metadata (chunk result) in
  <[py "excerpt" := MStr (take 200 (strip (chunk_text (chunk result))))]>
    (<[py "chunk_id" := MStr (chunk_id (chunk result))]>
       (<[py "doc_id" := MStr (chunk_doc_id (chunk result))]>
          (<[py "source" := meta_or (meta_get metadata (py "source_name"))
                                    (meta_get metadata (py "source"))]>
             (<[py "label" := MStr (py "[" ++ decimal idx ++ py "]")]> ∅)))).

(** [for idx, result in enumerate(contexts, start=idx)] *)
Fixpoint citations_from (idx : nat) (contexts : list RetrievalResult)
  : list (gmap str MetaVal) :=
  match contexts with
  | [] => []
  | result :: rest => citation idx result :: citations_from (S idx) rest
  end.

(** The citations that [generate_answer] returns for [contexts]. *)
Definition build_citations (contexts : list RetrievalResult) : list (gmap str MetaVal) :=
  citations_from 1 contexts.

(** ** app/evaluation.py: failure cases of one sample *)

Fixpoint starts_with (gt s : str) : bool :=
  match gt, s with
  | [], _ => true
  | g :: gt', c :: s' => (g =? c)%N && starts_with gt' s'
  | _ :: _, [] => false
  end.

(** [gt in s] on strings. *)
Fixpoint str_in (gt s : str) : bool :=
  starts_with gt s
  || match s with
     | [] => false
     | _ :: s' => str_in gt s'
     end.

(** [any(gt and gt in context for gt in sample.ground_truths)] *)
Definition gt_in (ground_truths : list str) (context : str) : bool :=
  existsb (fun gt => truthy gt && str_in gt context) ground_truths.

(** The loop over [enumerate(raw_texts, start=rank)] that sets
    [first_hit_rank]. *)
Fixpoint first_hit (ground_truths : list str) (rank : nat) (raw_texts : list str)
  : option nat :=
  match raw_texts with
  | [] => None
  | context :: rest =>
      if gt_in ground_truths context then Some rank
      else first_hit ground_truths (S rank) rest
  end.

Inductive FailureCase :=
| RetrievalError
| RerankError (hit_rank : nat)
| GenerationError.

(** The failure case, if any, under which [evaluate_dataset] files a
    sample, from the texts retrieved at rerank depth, the texts of the
    answer's contexts and the answer. *)
Definition failure_case (ground_truths raw_texts final_texts : list str)
    (answer_text : str) : option FailureCase :=
  match first_hit ground_truths 1 raw_texts with
  | None => Some RetrievalError
  | Some rank =>
      if negb (existsb (gt_in ground_truths) final_texts) then Some (RerankError rank)
      else if negb (gt_in ground_truths answer_text) then Some GenerationError
      else None
  end.

(** A window of sentences fits the chunk size, or is a sentence of
    [processed] preceded by at most [overlap] characters. *)
Definition fits (chunk_size overlap : Z) (processed : list str) (n : Z) : Prop :=
  n <= chunk_size \/ exists s, s ∈ processed /\ n <= overlap + len s.

Record size_inv (chunk_size overlap : Z) (processed : list str)
    (st : ChunkState) : Prop := {
  si_window : current_chunk st = []
              \/ fits chunk_size overlap processed (sum_len (current_chunk st));
  si_chunks : Forall (fun c => fits chunk_size overlap processed (len (chunk_text c)))
                     (chunks st)
}.

Definition first_weather_chunk : DocumentChunk :=
  {| chunk_doc_id := py "doc"; chunk_id := py "doc_00000"; chunk_text := sentence_one;
     start_index := 0; end_index := 5;
     chunk_metadata := <[py "chunk_index" := MInt 0]> ∅ |}.

(** * Properties *)

(** ** Strings *)

Lemma len_nonneg {A} (l : list A) : 0 <= len l.
Proof. unfold len. lia. Qed.

Lemma len_app {A} (l1 l2 : list A) : len (l1 ++ l2) = len l1 + len l2.
Proof. unfold len. rewrite length_app. lia. Qed.

Lemma lstrip_length (s : str) : (length (lstrip s) <= length s)%nat.
Proof.
  induction s as [|c rest IH]; simpl; [lia|].
  destruct (is_space c); simpl; lia.
Qed.

Lemma strip_len (s : str) : len (strip s) <= len s.
Proof.
  unfold strip, rstrip, len.
  rewrite length_rev.
  pose proof (lstrip_length (rev (lstrip s))) as H1.
  rewrite length_rev in H1.
  pose proof (lstrip_length s). lia.
Qed.

Lemma sum_len_nonneg (l : list str) : 0 <= sum_len l.
Proof.
  induction l as [|s l IH]; simpl; [lia|].
  pose proof (len_nonneg s). lia.
Qed.

Lemma sum_len_app (l1 l2 : list str) : sum_len (l1 ++ l2) = sum_len l1 + sum_len l2.
Proof. induction l1 as [|s l1 IH]; simpl; lia. Qed.

Lemma len_concat (l : list str) : len (concat l) = sum_len l.
Proof.
  induction l as [|s l IH]; simpl; [reflexivity|].
  rewrite len_app. lia.
Qed.

Lemma sep_split_concat (s : str) : concat (sep_split s) = s.
Proof.
  induction s as [|c rest IH]; simpl; [reflexivity|].
  destruct (is_terminator c); simpl; [by rewrite IH|].
  destruct (sep_split rest) as [|p ps]; simpl in *; by subst.
Qed.

(** ** Sentence splitting *)

Lemma split_step_sum (parts : list str) (sentences : list str) (buffer : str) :
  let '(sentences', buffer') := fold_left split_step parts (sentences, buffer) in
  sum_len sentences' + len buffer' <= sum_len sentences + len buffer + sum_len parts.
Proof.
  revert sentences buffer.
  induction parts as [|part parts IH]; intros sentences buffer; simpl; [lia|].
  pose proof (len_nonneg part) as Hp.
  destruct (truthy (strip part)).
  - destruct (sep_search part).
    + specialize (IH (sentences ++ [strip (buffer ++ part)]) []).
      destruct (fold_left split_step parts _) as [s' b'].
      rewrite sum_len_app in IH. simpl in IH.
      pose proof (strip_len (buffer ++ part)) as Hs.
      rewrite len_app in Hs. change (len (@nil N)) with 0 in IH. lia.
    + specialize (IH sentences (buffer ++ part)).
      destruct (fold_left split_step parts _) as [s' b'].
      rewrite len_app in IH. lia.
  - specialize (IH sentences buffer).
    destruct (fold_left split_step parts _) as [s' b']. lia.
Qed.

(** The sentences together are never longer than the text. *)
Lemma split_sentences_sum (s : str) : sum_len (_split_sentences s) <= len s.
Proof.
  unfold _split_sentences.
  pose proof (split_step_sum (sep_split s) [] []) as H.
  rewrite <- (len_concat (sep_split s)), sep_split_concat in H.
  destruct (fold_left split_step (sep_split s) ([], [])) as [sentences buffer].
  change (sum_len []) with 0 in H. change (len (@nil N)) with 0 in H.
  pose proof (strip_len buffer) as Hb.
  pose proof (len_nonneg buffer) as Hn.
  destruct (truthy (strip buffer)).
  - destruct (sentences ++ [strip buffer]) as [|x l] eqn:E.
    + destruct sentences; discriminate.
    + rewrite <- E, sum_len_app. simpl. lia.
  - destruct sentences as [|x l]; simpl in *; lia.
Qed.

Lemma split_sentences_nonempty (s : str) : _split_sentences s <> [].
Proof.
  unfold _split_sentences.
  destruct (fold_left split_step (sep_split s) ([], [])) as [sentences buffer].
  destruct (truthy (strip buffer)).
  - destruct (sentences ++ [strip buffer]) eqn:E; [|discriminate].
    destruct sentences; discriminate.
  - destruct sentences; discriminate.
Qed.

(** ** Chunking: the loop invariant *)

Lemma nondecreasing_nil : nondecreasing [].
Proof. intros i j x y _ H. by rewrite lookup_nil in H. Qed.

Lemma nondecreasing_snoc (l : list Z) (z : Z) :
  nondecreasing l -> Forall (fun x => x <= z) l -> nondecreasing (l ++ [z]).
Proof.
  intros Hl Hz i j x y Hij Hi Hj.
  destruct (decide (j < length l)%nat) as [Hlt|Hge].
  - rewrite lookup_app_l in Hi by lia. rewrite lookup_app_l in Hj by lia. eauto.
  - rewrite lookup_app_r in Hj by lia.
    destruct (j - length l)%nat as [|n] eqn:E; simpl in Hj; [|by rewrite lookup_nil in Hj].
    injection Hj as <-.
    destruct (decide (i < length l)%nat) as [Hi'|Hi'].
    + rewrite lookup_app_l in Hi by lia.
      rewrite Forall_forall in Hz. apply Hz. eapply list_elem_of_lookup_2, Hi.
    + rewrite lookup_app_r in Hi by lia.
      destruct (i - length l)%nat as [|m] eqn:E'; simpl in Hi; [|by rewrite lookup_nil in Hi].
      injection Hi as <-. lia.
Qed.

Lemma shrink_suffix (overlap : Z) (cc : list str) (cl : Z) :
  exists dropped, cc = dropped ++ (shrink overlap cc cl).1.
Proof.
  revert cl. induction cc as [|s cc IH]; intros cl; simpl.
  - by exists [].
  - destruct (overlap <? cl).
    + destruct (IH (cl - len s)) as [dropped Hd]. exists (s :: dropped). simpl. by f_equal.
    + by exists [].
Qed.

Lemma shrink_sum (overlap : Z) (cc : list str) (cl : Z) :
  sum_len (shrink overlap cc cl).1 <= sum_len cc.
Proof.
  destruct (shrink_suffix overlap cc cl) as [dropped Hd].
  rewrite Hd at 2. rewrite sum_len_app. pose proof (sum_len_nonneg dropped). lia.
Qed.

Lemma expected_ids_S (d : str) (n : nat) :
  expected_ids d (S n) = expected_ids d n ++ [d ++ py "_" ++ format_05d n].
Proof. unfold expected_ids. by rewrite seq_S, map_app. Qed.

Lemma make_chunk_bounds (document : RawDocument) (st : ChunkState) :
  chunk_inv document st ->
  start_index (make_chunk document st) = text_cursor st - current_length st
  /\ start_index (make_chunk document st) <= end_index (make_chunk document st)
  /\ end_index (make_chunk document st) <= text_cursor st.
Proof.
  intros [Hlen Hwin _ _ _]. simpl.
  pose proof (strip_len (concat (current_chunk st))) as Hs.
  pose proof (len_nonneg (strip (concat (current_chunk st)))) as Hn.
  rewrite len_concat in Hs. lia.
Qed.

Lemma chunk_inv_flush (document : RawDocument) (st : ChunkState) (kept : list str) :
  chunk_inv document st ->
  sum_len kept <= sum_len (current_chunk st) ->
  chunk_inv document
    {| chunks := chunks st ++ [make_chunk document st];
       text_cursor := text_cursor st;
       chunk_index := S (chunk_index st);
       current_chunk := kept;
       current_length := sum_len kept |}.
Proof.
  intros Hinv Hkept.
  destruct (make_chunk_bounds document st Hinv) as (Hstart & Hse & Hend).
  destruct Hinv as [Hlen Hwin Hb Hsorted Hids].
  constructor; simpl.
  - reflexivity.
  - lia.
  - apply Forall_app. split.
    + eapply Forall_impl; [exact Hb|]. simpl. intros c Hc. lia.
    + constructor; [|constructor]. lia.
  - rewrite map_app. simpl. apply nondecreasing_snoc; [exact Hsorted|].
    apply Forall_map. eapply Forall_impl; [exact Hb|]. simpl. intros c Hc. lia.
  - rewrite map_app, Hids, expected_ids_S. reflexivity.
Qed.

Lemma chunk_inv_append (document : RawDocument) (st : ChunkState) (sentence : str) :
  chunk_inv document st ->
  chunk_inv document
    {| chunks := chunks st;
       text_cursor := text_cursor st + len sentence;
       chunk_index := chunk_index st;
       current_chunk := current_chunk st ++ [sentence];
       current_length := current_length st + len sentence |}.
Proof.
  intros [Hlen Hwin Hb Hsorted Hids].
  pose proof (len_nonneg sentence) as Hn.
  constructor; simpl; try assumption.
  - rewrite sum_len_app. simpl. lia.
  - lia.
  - eapply Forall_impl; [exact Hb|]. simpl. intros c Hc. lia.
Qed.

Lemma chunk_step_inv (document : RawDocument) (chunk_size overlap : Z)
    (st : ChunkState) (sentence : str) :
  chunk_inv document st ->
  chunk_inv document (chunk_step document chunk_size overlap st sentence).
Proof.
  intros Hinv. unfold chunk_step.
  destruct ((chunk_size <? current_length st + len sentence)
            && negb (bool_decide (current_chunk st = []))).
  - pose proof (shrink_sum overlap (current_chunk st) (current_length st)) as Hk.
    destruct (shrink overlap (current_chunk st) (current_length st)) as [kept cl'].
    simpl in Hk.
    apply (chunk_inv_append document _ sentence).
    by apply chunk_inv_flush.
  - by apply chunk_inv_append.
Qed.

Lemma chunk_fold_inv (document : RawDocument) (chunk_size overlap : Z)
    (sentences : list str) (st : ChunkState) :
  chunk_inv document st ->
  chunk_inv document (fold_left (chunk_step document chunk_size overlap) sentences st).
Proof.
  revert st. induction sentences as [|s sentences IH]; intros st Hinv; simpl; [done|].
  by apply IH, chunk_step_inv.
Qed.

Lemma chunk_step_cursor (document : RawDocument) (chunk_size overlap : Z)
    (st : ChunkState) (sentence : str) :
  text_cursor (chunk_step document chunk_size overlap st sentence)
  = text_cursor st + len sentence.
Proof.
  unfold chunk_step.
  destruct ((chunk_size <? current_length st + len sentence)
            && negb (bool_decide (current_chunk st = []))); [|reflexivity].
  by destruct (shrink overlap (current_chunk st) (current_length st)).
Qed.

Lemma chunk_fold_cursor (document : RawDocument) (chunk_size overlap : Z)
    (sentences : list str) (st : ChunkState) :
  text_cursor (fold_left (chunk_step document chunk_size overlap) sentences st)
  = text_cursor st + sum_len sentences.
Proof.
  revert st. induction sentences as [|s sentences IH]; intros st; simpl; [lia|].
  rewrite IH, chunk_step_cursor. lia.
Qed.

Lemma chunk_init_inv (document : RawDocument) : chunk_inv document chunk_init.
Proof.
  constructor; simpl; first [apply nondecreasing_nil | done].
Qed.

(** Offsets and identifiers of the chunks of one document. *)
Lemma chunk_document_inv (document : RawDocument) (chunk_size overlap : Z) :
  Forall (fun c => start_index c <= end_index c <= len (text document))
         (chunk_document document chunk_size overlap)
  /\ nondecreasing (map start_index (chunk_document document chunk_size overlap))
  /\ exists n, map chunk_id (chunk_document document chunk_size overlap)
               = expected_ids (doc_id document) n.
Proof.
  unfold chunk_document.
  pose proof (split_sentences_sum (text document)) as Hsum.
  destruct (_split_sentences (text document)) as [|s0 rest] eqn:Hs.
  { repeat split; [constructor|apply nondecreasing_nil|by exists 0%nat]. }
  set (sentences := s0 :: rest) in *.
  pose proof (chunk_fold_inv document chunk_size overlap sentences chunk_init
                (chunk_init_inv document)) as Hinv.
  pose proof (chunk_fold_cursor document chunk_size overlap sentences chunk_init) as Hcur.
  set (st := fold_left _ sentences chunk_init) in *.
  change (text_cursor chunk_init) with 0 in Hcur.
  assert (Hflush : chunk_inv document
            {| chunks := chunks st ++ [make_chunk document st];
               text_cursor := text_cursor st;
               chunk_index := S (chunk_index st);
               current_chunk := [];
               current_length := sum_len [] |}).
  { apply chunk_inv_flush; [done|]. simpl. apply sum_len_nonneg. }
  assert (Hall : forall stf, chunk_inv document stf -> text_cursor stf = text_cursor st ->
            Forall (fun c => start_index c <= end_index c <= len (text document)) (chunks stf)
            /\ nondecreasing (map start_index (chunks stf))
            /\ exists n, map chunk_id (chunks stf) = expected_ids (doc_id document) n).
  { intros stf [_ _ Hb Hsorted Hids] Hc. repeat split; [|done|by eexists].
    eapply Forall_impl; [exact Hb|]. simpl. intros c Hcb.
    lia. }
  destruct (current_chunk st).
  - by apply Hall.
  - by apply (Hall _ Hflush).
Qed.

(** ** Chunk identifiers *)

Lemma chars_uint_chars (u : Decimal.uint) : chars_uint (uint_chars u) = u.
Proof. induction u as [|u IH|u IH|u IH|u IH|u IH|u IH|u IH|u IH|u IH|u IH]; simpl; by rewrite ?IH. Qed.

Lemma of_uint_zeros (k : nat) (s : str) :
  Nat.of_uint (chars_uint (repeat 48%N k ++ s)) = Nat.of_uint (chars_uint s).
Proof. induction k as [|k IH]; simpl; [reflexivity|]. exact IH. Qed.

Lemma format_05d_parse (n : nat) : Nat.of_uint (chars_uint (format_05d n)) = n.
Proof.
  unfold format_05d. rewrite of_uint_zeros, chars_uint_chars.
  apply DecimalNat.Unsigned.of_to.
Qed.

Lemma format_05d_inj (i j : nat) : format_05d i = format_05d j -> i = j.
Proof.
  intros H. rewrite <- (format_05d_parse i), <- (format_05d_parse j). by rewrite H.
Qed.

Lemma uint_chars_digits (u : Decimal.uint) : Forall (fun c => is_digit c = true) (uint_chars u).
Proof. induction u; simpl; constructor; done. Qed.

Lemma format_05d_digits (n : nat) : Forall (fun c => is_digit c = true) (format_05d n).
Proof.
  unfold format_05d. apply Forall_app. split; [|apply uint_chars_digits].
  induction (5 - _)%nat; simpl; constructor; done.
Qed.

Lemma underscore_not_in_format (n : nat) : 95%N ∉ format_05d n.
Proof.
  intros Hin. pose proof (format_05d_digits n) as H.
  rewrite Forall_forall in H. specialize (H _ Hin). discriminate.
Qed.

(** A string is cut in one way only at its last separator. *)
Lemma app_sep_inj (x : N) (l1 l2 r1 r2 : str) :
  x ∉ r1 -> x ∉ r2 -> l1 ++ x :: r1 = l2 ++ x :: r2 -> l1 = l2 /\ r1 = r2.
Proof.
  revert l2. induction l1 as [|a l1 IH]; intros [|b l2] H1 H2 Heq; simpl in Heq.
  - by injection Heq.
  - injection Heq as _ Hr. exfalso. apply H1. rewrite Hr.
    apply elem_of_app. right. left.
  - injection Heq as _ Hr. exfalso. apply H2. rewrite <- Hr.
    apply elem_of_app. right. left.
  - injection Heq as -> Heq. destruct (IH l2 H1 H2 Heq) as [-> ->]. done.
Qed.

Lemma chunk_id_inj (d1 d2 : str) (i j : nat) :
  d1 ++ py "_" ++ format_05d i = d2 ++ py "_" ++ format_05d j -> d1 = d2 /\ i = j.
Proof.
  change (py "_") with [95%N]. simpl. intros H.
  apply app_sep_inj in H; try apply underscore_not_in_format.
  destruct H as [-> H]. split; [done|]. by apply format_05d_inj.
Qed.

Lemma expected_ids_elem (d x : str) (n : nat) :
  x ∈ expected_ids d n -> exists i, x = d ++ py "_" ++ format_05d i.
Proof.
  unfold expected_ids. rewrite list_elem_of_In, in_map_iff.
  intros (i & <- & _). by exists i.
Qed.

Lemma expected_ids_NoDup (d : str) (n : nat) : NoDup (expected_ids d n).
Proof.
  induction n as [|n IH]; [constructor|].
  rewrite expected_ids_S. apply NoDup_app. split; [done|]. split; [|apply NoDup_singleton].
  intros x Hx Hx'. apply list_elem_of_singleton in Hx'. subst x.
  unfold expected_ids in Hx. rewrite list_elem_of_In, in_map_iff in Hx.
  destruct Hx as (i & Heq & Hi). apply chunk_id_inj in Heq as [_ ->].
  apply in_seq in Hi. lia.
Qed.

Lemma chunk_corpus_ids_elem (documents : list RawDocument) (chunk_size overlap : Z) (x : str) :
  x ∈ map chunk_id (chunk_corpus documents chunk_size overlap) ->
  exists d i, d ∈ documents /\ x = doc_id d ++ py "_" ++ format_05d i.
Proof.
  induction documents as [|d ds IH]; simpl.
  - unfold chunk_corpus. simpl. intros H. by apply elem_of_nil in H.
  - unfold chunk_corpus in *. simpl. rewrite map_app. intros H.
    apply elem_of_app in H as [H|H].
    + destruct (chunk_document_inv d chunk_size overlap) as (_ & _ & n & Hids).
      rewrite Hids in H. apply expected_ids_elem in H as [i ->].
      exists d, i. split; [left|done].
    + destruct (IH H) as (d' & i & Hd' & ->). exists d', i. split; [by right|done].
Qed.

Lemma chunk_corpus_ids_NoDup (documents : list RawDocument) (chunk_size overlap : Z) :
  NoDup (map doc_id documents) ->
  NoDup (map chunk_id (chunk_corpus documents chunk_size overlap)).
Proof.
  induction documents as [|d ds IH]; simpl; intros Hnd.
  - constructor.
  - apply NoDup_cons in Hnd as [Hd Hds].
    unfold chunk_corpus in *. simpl. rewrite map_app. apply NoDup_app.
    destruct (chunk_document_inv d chunk_size overlap) as (_ & _ & n & Hids).
    split; [rewrite Hids; apply expected_ids_NoDup|].
    split; [|by apply IH].
    intros x Hx Hx'. rewrite Hids in Hx. apply expected_ids_elem in Hx as [i ->].
    apply chunk_corpus_ids_elem in Hx' as (d' & j & Hd' & Heq).
    apply chunk_id_inj in Heq as [Heq _].
    apply Hd. rewrite Heq. apply list_elem_of_In, in_map, list_elem_of_In, Hd'.
Qed.

(** ** The chunking claims *)

(** C1, as stated, fails: with [chunk_size=10] and [overlap=2] the
    two-sentence document 天气很好。我们去公园。 does not yield exactly one
    chunk. *)
Lemma weather_not_one_chunk :
  ~ exists c, chunk_document (weather_doc (py "doc") ∅) 10 2 = [c]
              /\ chunk_id c = py "doc_00000".
Proof. intros (c & H & _). vm_compute in H. discriminate H. Qed.

(** C1, amended: the two sentences have 5 and 6 characters, 11 together,
    so with [chunk_size=10] and [overlap=2] the document yields exactly two
    chunks, one per sentence, with identifiers [<docId>_00000] and
    [<docId>_00001]; with [chunk_size=11] it yields exactly one chunk that
    holds both sentences, with identifier [<docId>_00000]. *)
Theorem weather_chunks (d : str) (m : gmap str MetaVal) :
  chunk_document (weather_doc d m) 10 2
  = [ {| chunk_doc_id := d; chunk_id := d ++ py "_00000";
         chunk_text := sentence_one; start_index := 0; end_index := 5;
         chunk_metadata := <[py "chunk_index" := MInt 0]> m |};
      {| chunk_doc_id := d; chunk_id := d ++ py "_00001";
         chunk_text := sentence_two; start_index := 5; end_index := 11;
         chunk_metadata := <[py "chunk_index" := MInt 1]> m |} ]
  /\ chunk_document (weather_doc d m) 11 2
     = [ {| chunk_doc_id := d; chunk_id := d ++ py "_00000";
            chunk_text := sentence_one ++ sentence_two;
            start_index := 0; end_index := 11;
            chunk_metadata := <[py "chunk_index" := MInt 0]> m |} ]
  /\ len sentence_one + len sentence_two = 11.
Proof. repeat split. Qed.

(** C6, at the failing input: a document whose text is the empty string
    yields one chunk, with the empty text and offsets 0 and 0, whatever
    the chunk size and the overlap. *)
Theorem chunk_document_empty_text (d sp : str) (m : gmap str MetaVal)
    (chunk_size overlap : Z) :
  chunk_document (empty_doc d sp m) chunk_size overlap
  = [ {| chunk_doc_id := d; chunk_id := d ++ py "_00000"; chunk_text := [];
         start_index := 0; end_index := 0;
         chunk_metadata := <[py "chunk_index" := MInt 0]> m |} ].
Proof.
  unfold chunk_document. simpl. unfold chunk_step. simpl.
  rewrite andb_false_r. reflexivity.
Qed.

(** The second half of C6: a text that is one sentence is kept whole as
    one chunk, however small the chunk size is. *)
Lemma single_sentence_kept_whole (document : RawDocument) (chunk_size overlap : Z)
    (s : str) :
  _split_sentences (text document) = [s] ->
  map chunk_text (chunk_document document chunk_size overlap) = [strip s].
Proof.
  intros Hs. unfold chunk_document. rewrite Hs. simpl. unfold chunk_step. simpl.
  rewrite andb_false_r. simpl. by rewrite app_nil_r.
Qed.

(** C9: every chunk of a document has [start_index <= end_index <=
    len(text)], the chunks of a document come in non-decreasing order of
    [start_index], and the [chunk_id]s of a corpus whose documents have
    distinct [doc_id]s are pairwise distinct. *)
Theorem chunk_offsets_order_ids (documents : list RawDocument) (chunk_size overlap : Z) :
  (forall document,
     Forall (fun c => start_index c <= end_index c <= len (text document))
            (chunk_document document chunk_size overlap)
     /\ nondecreasing (map start_index (chunk_document document chunk_size overlap)))
  /\ (NoDup (map doc_id documents) ->
      NoDup (map chunk_id (chunk_corpus documents chunk_size overlap))).
Proof.
  split.
  - intros document.
    destruct (chunk_document_inv document chunk_size overlap) as (H1 & H2 & _). done.
  - apply chunk_corpus_ids_NoDup.
Qed.

Lemma chunk_offsets_order_ids_witness :
  NoDup (map doc_id two_docs)
  /\ NoDup (map chunk_id (chunk_corpus two_docs 10 2)).
Proof.
  assert (H : NoDup (map doc_id two_docs)).
  { apply (bool_decide_unpack _). vm_compute. exact I. }
  split; [exact H|].
  exact (proj2 (chunk_offsets_order_ids two_docs 10 2) H).
Defined.

(** ** The embedding cache *)

Lemma lookup_map {A B} (f : A -> B) (l : list A) (i : nat) :
  map f l !! i = f <$> (l !! i).
Proof.
  revert i. induction l as [|x l IH]; intros [|i]; simpl; done.
Qed.

Lemma save_cache_cache (write_ok : bool) (svc : EmbeddingService) :
  _cache (_save_cache write_ok svc) = _cache svc.
Proof. unfold _save_cache. destruct (negb _), write_ok; reflexivity. Qed.

Lemma vstack_Return (embeddings : list (option (list Z)))
    (rows : list (list (option Z))) :
  vstack embeddings = Return rows ->
  rows = map atleast_2d embeddings /\ same_width rows = true.
Proof.
  unfold vstack. destruct (same_width (map atleast_2d embeddings)) eqn:E; [|discriminate].
  intros H. injection H as <-. done.
Qed.

Lemma map_Some_inj (r r' : list Z) : map Some r = map Some r' -> r = r'.
Proof.
  revert r'. induction r as [|x r IH]; intros [|x' r'] H; simpl in H; try discriminate;
    [done|].
  injection H as -> H. f_equal. by apply IH.
Qed.

(** A row of floats does not come from a [None]. *)
Lemma atleast_2d_floats (embedding : option (list Z)) (row : list Z) :
  atleast_2d embedding = map Some row -> embedding = Some row.
Proof.
  destruct embedding as [r|]; simpl.
  - intros H. f_equal. by apply map_Some_inj.
  - destruct row as [|x [|y row]]; discriminate.
Qed.

Lemma atleast_2d_float_rows (embeddings : list (option (list Z))) (rows : list (list Z)) :
  map atleast_2d embeddings = float_rows rows -> embeddings = map Some rows.
Proof.
  revert embeddings. induction rows as [|row rows IH]; intros [|e embeddings] H;
    simpl in H; try discriminate; [done|].
  injection H as H1 H2. simpl. f_equal; [by apply atleast_2d_floats|by apply IH].
Qed.

Lemma float_rows_atleast_2d (rows : list (list Z)) :
  map atleast_2d (map Some rows) = float_rows rows.
Proof. unfold float_rows. induction rows as [|row rows IH]; simpl; [done|]. by rewrite IH. Qed.

Lemma vstack_floats (embeddings : list (option (list Z))) (rows : list (list Z)) :
  vstack embeddings = Return (float_rows rows) -> embeddings = map Some rows.
Proof. intros [H _]%vstack_Return. by apply atleast_2d_float_rows. Qed.

Lemma same_width_float_rows (rows : list (list Z)) :
  same_width (float_rows rows) = same_width rows.
Proof.
  destruct rows as [|row rows]; [done|]. simpl.
  induction rows as [|r rows IH]; simpl; [done|]. by rewrite IH, !length_map.
Qed.

Lemma vstack_float_rows (rows : list (list Z)) :
  same_width rows = true -> vstack (map Some rows) = Return (float_rows rows).
Proof.
  intros H. unfold vstack. by rewrite float_rows_atleast_2d, same_width_float_rows, H.
Qed.

Lemma same_width_all {A} (rows : list (list A)) (r r' : list A) :
  same_width rows = true -> r ∈ rows -> r' ∈ rows -> length r = length r'.
Proof.
  destruct rows as [|r0 rows]; [discriminate|]. simpl. intros H Hr Hr'.
  rewrite forallb_forall in H.
  assert (Hall : forall x, x ∈ r0 :: rows -> length x = length r0).
  { intros x Hx. apply elem_of_cons in Hx as [->|Hx]; [done|].
    apply Nat.eqb_eq, H. by apply list_elem_of_In. }
  by rewrite (Hall r Hr), (Hall r' Hr').
Qed.

Lemma same_width_intro {A} (rows : list (list A)) (n : nat) :
  rows <> [] -> (forall r, r ∈ rows -> length r = n) -> same_width rows = true.
Proof.
  destruct rows as [|r0 rows]; [done|]. intros _ H. simpl.
  apply forallb_forall. intros r Hr. apply Nat.eqb_eq.
  rewrite (H r0) by left. apply H. right. by apply list_elem_of_In.
Qed.

(** The first loop: the embeddings are the cache entries of the texts. *)
Lemma read_cache_embeddings (_hash_text : str -> str) (cache : gmap str (list Z))
    (idx : nat) (texts : list str) :
  (read_cache _hash_text cache idx texts).1.1
  = map (fun t => cache !! _hash_text t) texts.
Proof.
  revert idx. induction texts as [|t texts IH]; intros idx; simpl; [done|].
  specialize (IH (S idx)).
  destruct (read_cache _hash_text cache (S idx) texts) as [[embs mt] mi].
  simpl in IH. destruct (cache !! _hash_text t); simpl; by rewrite IH.
Qed.

(** Every missing index points at a text that the cache does not hold. *)
Lemma read_cache_missing (_hash_text : str -> str) (cache : gmap str (list Z))
    (idx : nat) (texts : list str) :
  Forall (fun i => exists t, (idx <= i)%nat /\ texts !! (i - idx)%nat = Some t
                             /\ cache !! _hash_text t = None)
         (read_cache _hash_text cache idx texts).2.
Proof.
  revert idx. induction texts as [|t texts IH]; intros idx; simpl; [constructor|].
  specialize (IH (S idx)).
  destruct (read_cache _hash_text cache (S idx) texts) as [[embs mt] mi].
  simpl in IH.
  assert (Hrest : Forall (fun i => exists t0, (idx <= i)%nat
                    /\ (t :: texts) !! (i - idx)%nat = Some t0
                    /\ cache !! _hash_text t0 = None) mi).
  { eapply Forall_impl; [exact IH|]. simpl. intros i (t0 & Hle & Hl & Hc).
    exists t0. split; [lia|]. split; [|done].
    replace (i - idx)%nat with (S (i - S idx)) by lia. done. }
  destruct (cache !! _hash_text t) eqn:E; simpl; [done|].
  constructor; [|done]. exists t. rewrite Nat.sub_diag. done.
Qed.

(** When every text is in the cache, nothing is missing. *)
Lemma read_cache_all_hits (_hash_text : str -> str) (cache : gmap str (list Z))
    (idx : nat) (texts : list str) (rows : list (list Z)) :
  length rows = length texts ->
  (forall i t, texts !! i = Some t -> cache !! _hash_text t = rows !! i) ->
  read_cache _hash_text cache idx texts = (map Some rows, [], []).
Proof.
  revert idx rows. induction texts as [|t texts IH]; intros idx rows Hlen Hall.
  - destruct rows; [done|discriminate].
  - destruct rows as [|row rows]; [discriminate|]. simpl.
    rewrite (IH (S idx) rows).
    + rewrite (Hall 0%nat t eq_refl). done.
    + simpl in Hlen. lia.
    + intros i t' Ht'. apply (Hall (S i) t' Ht').
Qed.

Lemma cache_inv_init (_hash_text : str -> str) (orig : gmap str (list Z))
    (texts : list str) :
  cache_inv _hash_text orig texts (map (fun t => orig !! _hash_text t) texts) orig.
Proof.
  constructor.
  - by rewrite length_map.
  - intros i t e Ht He. rewrite lookup_map, Ht in He. simpl in He.
    injection He as He. by rewrite He.
  - intros k v Hk. by left.
  - intros i t v Ht Hv. rewrite lookup_map, Ht. simpl. by rewrite Hv.
Qed.

Lemma cache_inv_write (_hash_text : str -> str) (orig : gmap str (list Z))
    (texts : list str) (embeddings : list (option (list Z)))
    (cache : gmap str (list Z)) (target : nat) (t : str) (embed : list Z) :
  cache_inv _hash_text orig texts embeddings cache ->
  texts !! target = Some t ->
  orig !! _hash_text t = None ->
  cache_inv _hash_text orig texts (<[target := Some embed]> embeddings)
    (<[_hash_text t := embed]> cache).
Proof.
  intros [Hlen Hc Hs Hh] Ht Ho.
  assert (Hlt : (target < length embeddings)%nat).
  { rewrite Hlen. by eapply lookup_lt_Some. }
  constructor.
  - by rewrite length_insert.
  - intros i t' e Ht' He.
    destruct (decide (_hash_text t = _hash_text t')) as [Heq|Hne].
    + rewrite Heq, lookup_insert_eq. by eexists.
    + rewrite lookup_insert_ne by done.
      assert (i <> target) by (intros ->; congruence).
      rewrite list_lookup_insert_ne in He by done. eauto.
  - intros k v Hk.
    destruct (decide (_hash_text t = k)) as [Heq|Hne].
    + subst k. rewrite lookup_insert_eq in Hk. injection Hk as <-.
      right. exists target, t. repeat split; [done|].
      by apply list_lookup_insert_eq.
    + rewrite lookup_insert_ne in Hk by done.
      destruct (Hs k v Hk) as [Hor|(j & tj & Hj & Hkj & Hej)]; [by left|].
      right. exists j, tj. repeat split; [done..|].
      assert (j <> target) by (intros ->; congruence).
      by rewrite list_lookup_insert_ne.
  - intros i t' v Ht' Hv.
    assert (i <> target) by (intros ->; congruence).
    rewrite list_lookup_insert_ne by done. eauto.
Qed.

Lemma write_cache_inv (_hash_text : str -> str) (orig : gmap str (list Z))
    (texts : list str) (missing_indices : list nat) (new_embeds : list (list Z)) :
  Forall (fun i => exists t, texts !! i = Some t /\ orig !! _hash_text t = None)
         missing_indices ->
  forall offset embeddings svc embeddings' svc',
    cache_inv _hash_text orig texts embeddings (_cache svc) ->
    write_cache _hash_text texts missing_indices offset new_embeds embeddings svc
    = (Return embeddings', svc') ->
    cache_inv _hash_text orig texts embeddings' (_cache svc').
Proof.
  intros Hmiss.
  induction new_embeds as [|embed rest IH]; intros offset embeddings svc embeddings' svc' Hinv H;
    simpl in H.
  - by injection H as <- <-.
  - destruct (missing_indices !! offset) as [target|] eqn:Ht; [|discriminate].
    destruct (texts !! target) as [t|] eqn:Htext; [|discriminate].
    eapply IH; [|exact H]. simpl.
    rewrite Forall_forall in Hmiss.
    destruct (Hmiss target) as (t' & Ht' & Hnone); [by eapply list_elem_of_lookup_2|].
    assert (t' = t) by congruence. subst t'.
    by apply cache_inv_write.
Qed.

(** [embed_texts] on a list that is not empty. *)
Lemma embed_texts_nonempty (_hash_text : str -> str)
    (encode : list str -> option (list (list Z))) (write_ok : bool)
    (svc : EmbeddingService) (texts : list str) :
  texts <> [] ->
  embed_texts _hash_text encode write_ok svc texts
  = let '(embeddings, missing_texts, missing_indices) :=
      read_cache _hash_text (_cache svc) 0 texts in
    match missing_texts with
    | [] => {| embed_result := vstack embeddings; embed_service := svc;
               model_calls := [] |}
    | _ =>
        match encode missing_texts with
        | None => {| embed_result := Raise ExternalError; embed_service := svc;
                     model_calls := [missing_texts] |}
        | Some new_embeds =>
            match write_cache _hash_text texts missing_indices 0 new_embeds
                    embeddings svc with
            | (Raise e, svc') =>
                {| embed_result := Raise e; embed_service := svc';
                   model_calls := [missing_texts] |}
            | (Return embeddings', svc') =>
                {| embed_result := vstack embeddings';
                   embed_service := _save_cache write_ok svc';
                   model_calls := [missing_texts] |}
            end
        end
    end.
Proof. destruct texts; [done|reflexivity]. Qed.

(** After a call that returned an array of floats with the rows [rows],
    the cache holds for every input text a row that the call returned for
    a text with the same key. *)
Lemma embed_texts_cached (_hash_text : str -> str)
    (encode : list str -> option (list (list Z))) (write_ok : bool)
    (svc : EmbeddingService) (texts : list str) (rows : list (list Z)) :
  embed_result (embed_texts _hash_text encode write_ok svc texts)
  = Return (float_rows rows) ->
  texts <> [] /\ same_width rows = true /\ length rows = length texts
  /\ forall i t, texts !! i = Some t ->
       exists j tj v,
         texts !! j = Some tj /\ _hash_text tj = _hash_text t /\ rows !! j = Some v
         /\ _cache (embed_service (embed_texts _hash_text encode write_ok svc texts))
              !! _hash_text t = Some v.
Proof.
  intros H.
  assert (Hne : texts <> []) by (intros ->; discriminate H).
  split; [done|]. rewrite embed_texts_nonempty in * by done.
  pose proof (read_cache_embeddings _hash_text (_cache svc) 0 texts) as Hembs.
  pose proof (read_cache_missing _hash_text (_cache svc) 0 texts) as Hmiss.
  destruct (read_cache _hash_text (_cache svc) 0 texts) as [[embs mt] mi].
  simpl in Hembs, Hmiss. subst embs.
  assert (Hmiss' : Forall (fun i => exists t, texts !! i = Some t
                      /\ _cache svc !! _hash_text t = None) mi).
  { eapply Forall_impl; [exact Hmiss|]. simpl. intros i (t & _ & Hl & Hc).
    rewrite Nat.sub_0_r in Hl. eauto. }
  pose proof (cache_inv_init _hash_text (_cache svc) texts) as Hinit.
  assert (Hfinal : forall embs' cache',
    cache_inv _hash_text (_cache svc) texts embs' cache' ->
    vstack embs' = Return (float_rows rows) ->
    same_width rows = true /\ length rows = length texts
    /\ forall i t, texts !! i = Some t ->
         exists j tj v, texts !! j = Some tj /\ _hash_text tj = _hash_text t
                        /\ rows !! j = Some v /\ cache' !! _hash_text t = Some v).
  { intros embs' cache' [Hlen Hc Hs Hh] Hv.
    pose proof (vstack_floats _ _ Hv) as ->.
    apply vstack_Return in Hv as [_ Hw]. rewrite same_width_float_rows in Hw.
    rewrite length_map in Hlen. split; [done|]. split; [done|].
    intros i t Ht.
    destruct (rows !! i) as [vi|] eqn:Hvi.
    2:{ apply lookup_ge_None in Hvi. apply lookup_lt_Some in Ht. lia. }
    destruct (Hc i t vi Ht) as [v Hcv]; [by rewrite lookup_map, Hvi|].
    destruct (Hs _ _ Hcv) as [Hor|(j & tj & Hj & Hkj & Hej)].
    - specialize (Hh i t v Ht Hor). rewrite lookup_map, Hvi in Hh.
      injection Hh as ->. exists i, t, v. done.
    - rewrite lookup_map in Hej. destruct (rows !! j) as [vj|] eqn:Hvj; [|discriminate].
      injection Hej as ->. exists j, tj, v. done. }
  destruct mt as [|m0 mt0].
  - simpl in *. by apply (Hfinal _ _ Hinit).
  - destruct (encode (m0 :: mt0)) as [new_embeds|]; [|discriminate].
    destruct (write_cache _ _ _ _ _ _ _) as [[embs'|e] svc'] eqn:Hw; [|discriminate].
    simpl in *. rewrite save_cache_cache.
    apply (Hfinal embs'); [|done].
    by eapply write_cache_inv.
Qed.

(** A second call on the service that a call returning an array of floats
    left behind: it is served from the cache, row by row. *)
Lemma embed_texts_served (_hash_text : str -> str)
    (encode encode' : list str -> option (list (list Z))) (write_ok write_ok' : bool)
    (svc : EmbeddingService) (texts : list str) (rows : list (list Z)) :
  embed_result (embed_texts _hash_text encode write_ok svc texts)
  = Return (float_rows rows) ->
  exists rows2,
    embed_texts _hash_text encode' write_ok'
      (embed_service (embed_texts _hash_text encode write_ok svc texts)) texts
    = {| embed_result := Return (float_rows rows2);
         embed_service := embed_service (embed_texts _hash_text encode write_ok svc texts);
         model_calls := [] |}
    /\ length rows2 = length texts
    /\ forall i t, texts !! i = Some t ->
         exists j tj v,
           texts !! j = Some tj /\ _hash_text tj = _hash_text t /\ rows !! j = Some v
           /\ _cache (embed_service (embed_texts _hash_text encode write_ok svc texts))
                !! _hash_text t = Some v
           /\ rows2 !! i = Some v.
Proof.
  intros Hfirst.
  destruct (embed_texts_cached _ _ _ _ _ _ Hfirst) as (Hne & Hsw & Hlen & Hall).
  set (svc1 := embed_service (embed_texts _hash_text encode write_ok svc texts)) in *.
  set (rows2 := map (fun t => default [] (_cache svc1 !! _hash_text t)) texts).
  assert (Hrows2 : forall i t, texts !! i = Some t ->
            _cache svc1 !! _hash_text t = rows2 !! i).
  { intros i t Ht. unfold rows2. rewrite lookup_map, Ht. simpl.
    destruct (Hall i t Ht) as (j & tj & v & _ & _ & _ & Hc). by rewrite Hc. }
  assert (Hlen2 : length rows2 = length texts) by (unfold rows2; by rewrite length_map).
  assert (Hin : forall r, r ∈ rows2 -> r ∈ rows).
  { intros r Hr. apply list_elem_of_lookup_1 in Hr as [i Hi].
    destruct (texts !! i) as [t|] eqn:Ht.
    2:{ apply lookup_ge_None in Ht. apply lookup_lt_Some in Hi. lia. }
    destruct (Hall i t Ht) as (j & tj & v & _ & _ & Hv & Hc).
    rewrite <- (Hrows2 i t Ht), Hc in Hi. injection Hi as <-.
    by eapply list_elem_of_lookup_2. }
  assert (Hsw2 : same_width rows2 = true).
  { destruct rows as [|r0 rows'] eqn:Hrows.
    - destruct texts; [done|discriminate].
    - apply (same_width_intro rows2 (length r0)).
      + intros E. rewrite E in Hlen2. destruct texts; [done|discriminate].
      + intros r Hr. apply (same_width_all (r0 :: rows') r r0 Hsw); [by apply Hin|left]. }
  exists rows2. split; [|split; [done|]].
  - rewrite embed_texts_nonempty by done.
    rewrite (read_cache_all_hits _hash_text (_cache svc1) 0 texts rows2 Hlen2 Hrows2).
    by rewrite (vstack_float_rows rows2 Hsw2).
  - intros i t Ht. destruct (Hall i t Ht) as (j & tj & v & Hj & Hk & Hv & Hc).
    exists j, tj, v. repeat split; [done..|]. by rewrite <- (Hrows2 i t Ht).
Qed.

(** The second call returns the first call's array when that array has
    equal rows for texts with the same key. *)
Lemma embed_texts_again (_hash_text : str -> str)
    (encode encode' : list str -> option (list (list Z))) (write_ok write_ok' : bool)
    (svc : EmbeddingService) (texts : list str) (rows : list (list Z)) :
  embed_result (embed_texts _hash_text encode write_ok svc texts)
  = Return (float_rows rows) ->
  (forall i j ti tj vi vj,
     texts !! i = Some ti -> texts !! j = Some tj -> _hash_text ti = _hash_text tj ->
     rows !! i = Some vi -> rows !! j = Some vj -> vi = vj) ->
  embed_texts _hash_text encode' write_ok'
    (embed_service (embed_texts _hash_text encode write_ok svc texts)) texts
  = {| embed_result := Return (float_rows rows);
       embed_service := embed_service (embed_texts _hash_text encode write_ok svc texts);
       model_calls := [] |}.
Proof.
  intros Hfirst Hcons.
  destruct (embed_texts_cached _ _ _ _ _ _ Hfirst) as (_ & _ & Hlen & _).
  destruct (embed_texts_served _hash_text encode encode' write_ok write_ok' svc texts
              rows Hfirst) as (rows2 & -> & Hlen2 & Hrows2).
  assert (rows2 = rows) as ->; [|done].
  apply list_eq. intros i.
  destruct (texts !! i) as [t|] eqn:Ht.
  - destruct (Hrows2 i t Ht) as (j & tj & v & Hj & Hk & Hv & _ & ->).
    destruct (rows !! i) as [vi|] eqn:Hvi.
    2:{ apply lookup_ge_None in Hvi. apply lookup_lt_Some in Ht. lia. }
    f_equal. symmetry. by eapply (Hcons i j t tj vi v).
  - apply lookup_ge_None in Ht.
    rewrite (proj2 (lookup_ge_None rows2 i)) by lia.
    by rewrite (proj2 (lookup_ge_None rows i)) by lia.
Qed.

(** Texts with distinct keys: equal keys mean the same position. *)
Lemma distinct_keys_consistent (_hash_text : str -> str) (texts : list str)
    (rows : list (list Z)) :
  NoDup (map _hash_text texts) ->
  forall i j ti tj vi vj,
    texts !! i = Some ti -> texts !! j = Some tj -> _hash_text ti = _hash_text tj ->
    rows !! i = Some vi -> rows !! j = Some vj -> vi = vj.
Proof.
  intros Hnd i j ti tj vi vj Hi Hj Hk Hvi Hvj.
  assert (i = j) as ->; [|congruence].
  apply (NoDup_lookup (map _hash_text texts) i j (_hash_text ti) Hnd).
  - by rewrite lookup_map, Hi.
  - by rewrite lookup_map, Hj, Hk.
Qed.

(** ** The embedding claims *)

(** C8: when the call to the embedding model raises, [embed_texts] raises
    and leaves the service as it was: no cache entry is inserted and the
    dirty flag is not touched. *)
Theorem embed_texts_model_failure (_hash_text : str -> str)
    (encode : list str -> option (list (list Z))) (write_ok : bool)
    (svc : EmbeddingService) (texts batch : list str) :
  model_calls (embed_texts _hash_text encode write_ok svc texts) = [batch] ->
  encode batch = None ->
  embed_service (embed_texts _hash_text encode write_ok svc texts) = svc
  /\ embed_result (embed_texts _hash_text encode write_ok svc texts)
     = Raise ExternalError.
Proof.
  intros Hcalls Hnone.
  assert (Hne : texts <> []) by (intros ->; discriminate Hcalls).
  rewrite embed_texts_nonempty in * by done.
  destruct (read_cache _hash_text (_cache svc) 0 texts) as [[embs mt] mi].
  destruct mt as [|m0 mt0]; [discriminate|].
  destruct (encode (m0 :: mt0)) as [new_embeds|] eqn:E; [|done].
  exfalso.
  destruct (write_cache _ _ _ _ _ _ _) as [[embs'|e] svc'];
    simpl in Hcalls; injection Hcalls as <-; congruence.
Qed.

Lemma embed_texts_model_failure_witness :
  model_calls (embed_texts id (fun _ => None) true empty_service [py "a"; py "b"])
  = [[py "a"; py "b"]]
  /\ (fun _ : list str => @None (list (list Z))) [py "a"; py "b"] = None
  /\ embed_service (embed_texts id (fun _ => None) true empty_service [py "a"; py "b"])
     = empty_service.
Proof.
  split; [reflexivity|]. split; [reflexivity|].
  exact (proj1 (embed_texts_model_failure id (fun _ => None) true empty_service
                  [py "a"; py "b"] [py "a"; py "b"] eq_refl eq_refl)).
Defined.

(** C2, as stated, fails: on an empty cache, with a model that numbers
    the rows of a batch, [embed_texts([a, b, a])] passes the batch
    [[a, b, a]] to the model, in which [a] occurs twice, and returns rows
    0 and 2 that differ. *)
Lemma embed_aba_not_deduplicated :
  ~ (NoDup [py "a"; py "b"; py "a"])
  /\ model_calls (embed_texts id counting_model true empty_service
                    [py "a"; py "b"; py "a"])
     = [[py "a"; py "b"; py "a"]]
  /\ ~ exists r0 r1 r2,
         embed_result (embed_texts id counting_model true empty_service
                         [py "a"; py "b"; py "a"]) = Return [r0; r1; r2]
         /\ r0 = r2.
Proof.
  split; [|split].
  - intros H. apply NoDup_cons in H as [H _]. apply H. right. left.
  - reflexivity.
  - intros (r0 & r1 & r2 & H & Heq). vm_compute in H. congruence.
Qed.

(** C2, amended: on a cache that holds neither [a] nor [b], every call
    [embed_texts([a, b, a])] invokes the model exactly once, with the batch
    [[a, b, a]] (the repeated text is sent twice), whatever the model then
    does.  When that call of the model raises, [embed_texts] raises and the
    service is as before.  When the model returns three rows of one width,
    the result is the array of these three rows in order, so that row 0
    equals row 2 exactly when the model returned the same row for both
    occurrences of [a]; the cache then holds for [a] the row of its last
    occurrence. *)
Theorem embed_aba (_hash_text : str -> str)
    (encode : list str -> option (list (list Z))) (write_ok : bool)
    (svc : EmbeddingService) (a b : str) :
  _cache svc !! _hash_text a = None ->
  _cache svc !! _hash_text b = None ->
  model_calls (embed_texts _hash_text encode write_ok svc [a; b; a]) = [[a; b; a]]
  /\ (encode [a; b; a] = None ->
      embed_result (embed_texts _hash_text encode write_ok svc [a; b; a])
      = Raise ExternalError
      /\ embed_service (embed_texts _hash_text encode write_ok svc [a; b; a]) = svc)
  /\ (forall r0 r1 r2 : list Z,
        encode [a; b; a] = Some [r0; r1; r2] ->
        length r1 = length r0 -> length r2 = length r0 ->
        (exists row0 row1 row2,
           embed_result (embed_texts _hash_text encode write_ok svc [a; b; a])
           = Return [row0; row1; row2]
           /\ row0 = map Some r0 /\ row1 = map Some r1 /\ row2 = map Some r2
           /\ (row0 = row2 <-> r0 = r2))
        /\ _cache (embed_service (embed_texts _hash_text encode write_ok svc [a; b; a]))
             !! _hash_text a = Some r2).
Proof.
  intros Ha Hb. unfold embed_texts. simpl. rewrite Ha, Hb. split; [|split].
  - destruct (encode [a; b; a]) as [new_embeds|]; [|done].
    by destruct (write_cache _ _ _ _ _ _ _) as [[?|?] ?].
  - by intros ->.
  - intros r0 r1 r2 -> H1 H2. simpl.
    unfold vstack. simpl. rewrite !length_map, H1, H2, Nat.eqb_refl. simpl.
    rewrite save_cache_cache. simpl. split; [|by rewrite lookup_insert_eq].
    exists (map Some r0), (map Some r1), (map Some r2). repeat split; [|by intros ->].
    apply map_Some_inj.
Qed.

Lemma embed_aba_witness :
  model_calls (embed_texts id counting_model true empty_service [py "a"; py "b"; py "a"])
  = [[py "a"; py "b"; py "a"]]
  /\ embed_result (embed_texts id counting_model true empty_service
                     [py "a"; py "b"; py "a"])
     = Return (float_rows [[0]; [1]; [2]])
  /\ _cache (embed_service (embed_texts id counting_model true empty_service
                              [py "a"; py "b"; py "a"])) !! py "a" = Some [2].
Proof.
  pose proof (embed_aba id counting_model true empty_service (py "a") (py "b")
                eq_refl eq_refl) as (Hcalls & _ & Hrows).
  destruct (Hrows [0] [1] [2] eq_refl eq_refl eq_refl)
    as ((row0 & row1 & row2 & Hres & -> & -> & -> & _) & Hcache).
  exact (conj Hcalls (conj Hres Hcache)).
Defined.

(** C5, as stated, fails: with a model that numbers the rows of a batch,
    a second [embed_texts([a, a])] invokes no model but returns
    [[1], [1]] where the first call returned [[0], [1]]. *)
Lemma embed_twice_differs :
  embed_result (embed_texts id counting_model true empty_service [py "a"; py "a"])
  = Return (float_rows [[0]; [1]])
  /\ embed_result
       (embed_texts id counting_model true
          (embed_service (embed_texts id counting_model true empty_service
                            [py "a"; py "a"]))
          [py "a"; py "a"])
     = Return (float_rows [[1]; [1]])
  /\ model_calls
       (embed_texts id counting_model true
          (embed_service (embed_texts id counting_model true empty_service
                            [py "a"; py "a"]))
          [py "a"; py "a"])
     = [].
Proof. repeat split. Qed.

(** The condition of the amended C5 cannot be dropped: when the model
    returns too few rows, of width one, the first call returns an object
    array with a [None] row, the text of that row stays out of the cache,
    and a second call invokes the model again. *)
Example embed_twice_after_short_batch :
  embed_result (embed_texts id short_model true empty_service [py "a"; py "b"])
  = Return [[Some 5]; [None]]
  /\ _cache (embed_service (embed_texts id short_model true empty_service
                              [py "a"; py "b"])) !! py "b" = None
  /\ model_calls
       (embed_texts id short_model true
          (embed_service (embed_texts id short_model true empty_service
                            [py "a"; py "b"]))
          [py "a"; py "b"])
     = [[py "b"]].
Proof. repeat split. Qed.

(** C5, amended: after a call of [embed_texts] that returned an array of
    floats (a vector for every text), a second call with the same input
    list invokes no model, whatever the model would do, and leaves the
    service as it is; it returns an array of floats with one row per text,
    the row of a text being the vector that the cache holds for its key,
    which is a row that the first call returned for a text with the same
    key.  So the second result is identical to the first one when the
    first result has equal rows for texts with the same cache key, and in
    particular when no two texts of the list have the same key. *)
Theorem embed_texts_twice (_hash_text : str -> str)
    (encode encode' : list str -> option (list (list Z))) (write_ok write_ok' : bool)
    (svc : EmbeddingService) (texts : list str) (rows : list (list Z)) :
  embed_result (embed_texts _hash_text encode write_ok svc texts)
  = Return (float_rows rows) ->
  model_calls
    (embed_texts _hash_text encode' write_ok'
       (embed_service (embed_texts _hash_text encode write_ok svc texts)) texts) = []
  /\ embed_service
       (embed_texts _hash_text encode' write_ok'
          (embed_service (embed_texts _hash_text encode write_ok svc texts)) texts)
     = embed_service (embed_texts _hash_text encode write_ok svc texts)
  /\ (exists rows2,
        embed_result
          (embed_texts _hash_text encode' write_ok'
             (embed_service (embed_texts _hash_text encode write_ok svc texts)) texts)
        = Return (float_rows rows2)
        /\ length rows2 = length texts
        /\ forall i t, texts !! i = Some t ->
             exists j tj v,
               texts !! j = Some tj /\ _hash_text tj = _hash_text t
               /\ rows !! j = Some v
               /\ _cache (embed_service
                            (embed_texts _hash_text encode write_ok svc texts))
                    !! _hash_text t = Some v
               /\ rows2 !! i = Some v)
  /\ ((forall i j ti tj vi vj,
         texts !! i = Some ti -> texts !! j = Some tj -> _hash_text ti = _hash_text tj ->
         rows !! i = Some vi -> rows !! j = Some vj -> vi = vj) ->
      embed_result
        (embed_texts _hash_text encode' write_ok'
           (embed_service (embed_texts _hash_text encode write_ok svc texts)) texts)
      = Return (float_rows rows))
  /\ (NoDup (map _hash_text texts) ->
      embed_result
        (embed_texts _hash_text encode' write_ok'
           (embed_service (embed_texts _hash_text encode write_ok svc texts)) texts)
      = Return (float_rows rows)).
Proof.
  intros Hfirst.
  destruct (embed_texts_served _hash_text encode encode' write_ok write_ok' svc texts
              rows Hfirst) as (rows2 & Hrun & Hlen2 & Hrows2).
  split; [by rewrite Hrun|]. split; [by rewrite Hrun|]. split.
  { exists rows2. by rewrite Hrun. }
  assert (Hsame : (forall i j ti tj vi vj,
            texts !! i = Some ti -> texts !! j = Some tj ->
            _hash_text ti = _hash_text tj ->
            rows !! i = Some vi -> rows !! j = Some vj -> vi = vj) ->
          embed_result
            (embed_texts _hash_text encode' write_ok'
               (embed_service (embed_texts _hash_text encode write_ok svc texts)) texts)
          = Return (float_rows rows)).
  { intros Hcons.
    by rewrite (embed_texts_again _hash_text encode encode' write_ok write_ok' svc
                  texts rows Hfirst Hcons). }
  split; [done|].
  intros Hnd. apply Hsame. by apply distinct_keys_consistent.
Qed.

Lemma embed_texts_twice_witness :
  embed_result (embed_texts id pointwise_model true empty_service
                  [py "a"; py "b"; py "a"])
  = Return (float_rows [[97; 0; 0; 0]; [98; 0; 0; 0]; [97; 0; 0; 0]])
  /\ model_calls
       (embed_texts id counting_model false
          (embed_service (embed_texts id pointwise_model true empty_service
                            [py "a"; py "b"; py "a"]))
          [py "a"; py "b"; py "a"])
     = []
  /\ embed_result
       (embed_texts id counting_model false
          (embed_service (embed_texts id pointwise_model true empty_service
                            [py "a"; py "b"; py "a"]))
          [py "a"; py "b"; py "a"])
     = Return (float_rows [[97; 0; 0; 0]; [98; 0; 0; 0]; [97; 0; 0; 0]]).
Proof.
  split; [reflexivity|].
  pose proof (embed_texts_twice id pointwise_model counting_model true false
                empty_service [py "a"; py "b"; py "a"]
                [[97; 0; 0; 0]; [98; 0; 0; 0]; [97; 0; 0; 0]] eq_refl)
    as (Hcalls & _ & _ & Hsame & _).
  split; [exact Hcalls|]. apply Hsame.
  intros [|[|[|i]]] [|[|[|j]]] ti tj vi vj Hi Hj Hk Hvi Hvj;
    vm_compute in Hi, Hj, Hk, Hvi, Hvj; congruence.
Defined.

(** ** The rerankers *)

Lemma set_meta_text (h : nat -> RetrievalResult) (item : nat) (key : str)
    (v : MetaVal) (r : nat) :
  text_of (set_meta h item key v) r = text_of h r.
Proof. unfold text_of, set_meta. by destruct (Nat.eqb r item). Qed.

Lemma annotate_text (key : str) (items : list nat) (idx : nat)
    (h : nat -> RetrievalResult) (r : nat) :
  text_of (annotate key idx items h) r = text_of h r.
Proof.
  revert idx h. induction items as [|item items IH]; intros idx h; simpl; [done|].
  by rewrite IH, set_meta_text.
Qed.

Lemma slice_to_take {A} (l : list A) (k : Z) :
  0 <= k -> slice_to l k = take (Z.to_nat k) l.
Proof. intros Hk. unfold slice_to. destruct (0 <=? k) eqn:E; [done|lia]. Qed.

Lemma slice_to_len {A} (l : list A) (k : Z) : 0 <= k -> len (slice_to l k) <= k.
Proof.
  intros Hk. rewrite slice_to_take by done. unfold len. rewrite length_take. lia.
Qed.

Lemma slice_to_sublist {A} (l : list A) (k : Z) : slice_to l k `sublist_of` l.
Proof. unfold slice_to. destruct (0 <=? k); apply sublist_take. Qed.

Lemma sublist_map {A B} (f : A -> B) (l1 l2 : list A) :
  l1 `sublist_of` l2 -> map f l1 `sublist_of` map f l2.
Proof. induction 1; simpl; by constructor. Qed.

Lemma elem_of_map {A B} (f : A -> B) (l : list A) (y : B) :
  y ∈ map f l <-> exists x, y = f x /\ x ∈ l.
Proof.
  rewrite list_elem_of_In, in_map_iff. split.
  - intros (x & <- & Hx). exists x. by rewrite list_elem_of_In.
  - intros (x & -> & Hx). exists x. by rewrite <- list_elem_of_In.
Qed.

(** Distinct texts identify the candidates. *)
Lemma NoDup_map_inj_on {A B} (f : A -> B) (l : list A) (x y : A) :
  NoDup (map f l) -> x ∈ l -> y ∈ l -> f x = f y -> x = y.
Proof.
  induction l as [|a l IH]; simpl; intros Hnd Hx Hy Hf.
  - by apply elem_of_nil in Hx.
  - apply NoDup_cons in Hnd as [Ha Hnd].
    apply elem_of_cons in Hx as [->|Hx]; apply elem_of_cons in Hy as [->|Hy].
    + done.
    + exfalso. apply Ha. rewrite Hf. apply elem_of_map. by exists y.
    + exfalso. apply Ha. rewrite <- Hf. apply elem_of_map. by exists x.
    + by apply IH.
Qed.

Lemma list_index_lookup (t : str) (passages : list str) (i : nat) :
  list_index t passages = Some i -> passages !! i = Some t.
Proof.
  revert i. induction passages as [|p rest IH]; intros i H; simpl in H; [discriminate|].
  case_bool_decide as Hp.
  - injection H as <-. simpl. by rewrite Hp.
  - destruct (list_index t rest) as [j|]; [|discriminate].
    injection H as <-. simpl. by apply IH.
Qed.

Lemma mapping_get_elem (candidates : list nat) (index : Z) (item : nat) :
  mapping_get candidates index = Some item -> item ∈ candidates.
Proof.
  unfold mapping_get. destruct (index <? 0); [discriminate|].
  apply list_elem_of_lookup_2.
Qed.

Lemma py_in_false (eqv : RetrievalResult -> RetrievalResult -> bool)
    (h : nat -> RetrievalResult) (item : nat) (l : list nat) :
  py_in eqv h item l = false -> item ∉ l.
Proof.
  unfold py_in. intros H Hin.
  assert (Hex : existsb (fun x => Nat.eqb x item || eqv (h x) (h item)) l = true).
  { apply existsb_exists. exists item. split; [by apply list_elem_of_In|].
    by rewrite Nat.eqb_refl. }
  congruence.
Qed.

Lemma colbert_step_inv (h : nat -> RetrievalResult) (candidates : list nat)
    (passages : list str) (st : RankState) (result : RankResult) :
  rank_inv h candidates st ->
  rank_inv h candidates (colbert_step candidates passages st result).
Proof.
  intros [Hm Ht]. unfold colbert_step.
  destruct (match rr_result_index result with
            | Some i => Some i
            | None => _
            end) as [index|]; [|by constructor].
  destruct (mapping_get candidates index) as [item|] eqn:Hitem; [|by constructor].
  destruct (_ && _); [by constructor|].
  constructor; simpl.
  - intros r Hr. apply elem_of_app in Hr as [Hr|Hr]; [by apply Hm|].
    apply list_elem_of_singleton in Hr as ->. by eapply mapping_get_elem.
  - intros r. by rewrite set_meta_text.
Qed.

Lemma colbert_step_texts (h : nat -> RetrievalResult) (candidates : list nat)
    (st : RankState) (result : RankResult) :
  carries_text h candidates result ->
  rank_texts h st ->
  rank_texts h (colbert_step candidates (map (text_of h) candidates) st result).
Proof.
  intros (t & Htext & Htruthy & Hidx) [Hnd Hseen]. unfold colbert_step.
  rewrite Htext. simpl. rewrite Htruthy.
  destruct (match rr_result_index result with
            | Some i => Some i
            | None => _
            end) as [index|] eqn:Hindex; [|by constructor].
  destruct (mapping_get candidates index) as [item|] eqn:Hitem; [|by constructor].
  assert (Hit : text_of h item = t).
  { destruct (rr_result_index result) as [i|] eqn:Hi.
    - injection Hindex as <-. by eapply Hidx.
    - destruct (list_index t (map (text_of h) candidates)) as [n|] eqn:Hn; [|discriminate].
      injection Hindex as <-.
      apply list_index_lookup in Hn. rewrite lookup_map in Hn.
      unfold mapping_get in Hitem.
      destruct (Z.of_nat n <? 0); [discriminate|].
      rewrite Nat2Z.id in Hitem. rewrite Hitem in Hn. simpl in Hn. congruence. }
  simpl. case_bool_decide as Hs; [by constructor|].
  constructor; simpl.
  - rewrite map_app. simpl. apply NoDup_app. split; [done|]. split; [|apply NoDup_singleton].
    intros x Hx Hx'. apply list_elem_of_singleton in Hx'. subst x.
    rewrite Hit in Hx. apply elem_of_map in Hx as (r & Hr & Hin).
    apply Hs. rewrite Hr. by apply Hseen.
  - intros r Hr. apply elem_of_app in Hr as [Hr|Hr].
    + right. by apply Hseen.
    + apply list_elem_of_singleton in Hr as ->. rewrite Hit. left.
Qed.

Lemma colbert_fold_inv (h : nat -> RetrievalResult) (candidates : list nat)
    (passages : list str) (results : list RankResult) (st : RankState) :
  rank_inv h candidates st ->
  rank_inv h candidates (fold_left (colbert_step candidates passages) results st).
Proof.
  revert st. induction results as [|result results IH]; intros st Hinv; simpl; [done|].
  by apply IH, colbert_step_inv.
Qed.

Lemma colbert_fold_texts (h : nat -> RetrievalResult) (candidates : list nat)
    (results : list RankResult) (st : RankState) :
  Forall (carries_text h candidates) results ->
  rank_texts h st ->
  rank_texts h
    (fold_left (colbert_step candidates (map (text_of h) candidates)) results st).
Proof.
  revert st. induction results as [|result results IH]; intros st Hall Hinv; simpl; [done|].
  apply Forall_cons in Hall as [Hr Hall].
  by apply IH, colbert_step_texts.
Qed.

Lemma map_text_ext (h h' : nat -> RetrievalResult) (l : list nat) :
  (forall r, text_of h' r = text_of h r) -> map (text_of h') l = map (text_of h) l.
Proof. intros H. apply map_ext. intros r. apply H. Qed.

Lemma colbert_rerank_spec (eqv : RetrievalResult -> RetrievalResult -> bool)
    (results : list RankResult) (h : nat -> RetrievalResult)
    (candidates : list nat) (top_k : Z) :
  0 <= top_k ->
  len (colbert_rerank eqv results h candidates top_k).1 <= top_k
  /\ (forall r, r ∈ (colbert_rerank eqv results h candidates top_k).1 -> r ∈ candidates)
  /\ (forall r, text_of (colbert_rerank eqv results h candidates top_k).2 r = text_of h r)
  /\ (NoDup (map (text_of h) candidates) ->
      Forall (carries_text h candidates) results ->
      NoDup (map (text_of h) (colbert_rerank eqv results h candidates top_k).1)).
Proof.
  intros Hk. unfold colbert_rerank.
  assert (Hinit : rank_inv h candidates {| ranked := []; seen_texts := []; store := h |}).
  { constructor; simpl; [|done]. intros r Hr. by apply elem_of_nil in Hr. }
  pose proof (colbert_fold_inv h candidates (map (text_of h) candidates) results _ Hinit)
    as [Hm Ht].
  pose proof (colbert_fold_texts h candidates results
                {| ranked := []; seen_texts := []; store := h |}) as Htexts.
  set (st := fold_left _ results _) in *.
  set (remaining := filter (fun item => negb (py_in eqv (store st) item (ranked st)))
                      candidates).
  set (n := Z.to_nat (top_k - len (ranked st))).
  assert (Hrem : forall r, r ∈ take n remaining -> r ∈ candidates /\ r ∉ ranked st).
  { intros r Hr.
    assert (Hr' : r ∈ remaining) by (eapply elem_of_sublist; [exact Hr|apply sublist_take]).
    unfold remaining in Hr'. apply list_elem_of_filter in Hr' as [Hp Hc].
    split; [done|]. destruct (py_in eqv (store st) r (ranked st)) eqn:E; [done|].
    by eapply py_in_false. }
  set (full := if len (ranked st) <? top_k then ranked st ++ take n remaining
               else ranked st).
  assert (Hfull : forall r, r ∈ full -> r ∈ candidates).
  { intros r. unfold full. destruct (len (ranked st) <? top_k); [|by apply Hm].
    intros Hr. apply elem_of_app in Hr as [Hr|Hr]; [by apply Hm|by apply Hrem]. }
  simpl. repeat split.
  - by apply slice_to_len.
  - intros r Hr. apply Hfull. eapply elem_of_sublist; [exact Hr|apply slice_to_sublist].
  - done.
  - intros Hnd Hcarry.
    assert (Hst : rank_texts h st).
    { apply Htexts; [done|]. constructor; simpl; [constructor|].
      intros r Hr. by apply elem_of_nil in Hr. }
    destruct Hst as [Hnd' _].
    apply (sublist_NoDup _ (map (text_of h) full)); [|apply sublist_map, slice_to_sublist].
    unfold full. destruct (len (ranked st) <? top_k); [|done].
    rewrite map_app. apply NoDup_app. split; [done|]. split.
    + intros x Hx Hx'.
      apply elem_of_map in Hx as (r1 & -> & Hr1).
      apply elem_of_map in Hx' as (r2 & Heq & Hr2).
      destruct (Hrem r2 Hr2) as [Hc2 Hn2].
      assert (r1 = r2)
        by exact (NoDup_map_inj_on (text_of h) candidates r1 r2 Hnd (Hm _ Hr1) Hc2 Heq).
      by subst.
    + apply (sublist_NoDup _ (map (text_of h) candidates)); [exact Hnd|].
      apply sublist_map. etrans; [apply sublist_take|]. apply sublist_filter.
Qed.

(** What both reranker variants guarantee for [k >= 0]. *)
Lemma rerank_spec (eqv : RetrievalResult -> RetrievalResult -> bool)
    (rk : Reranker) (h h' : nat -> RetrievalResult) (query : str)
    (candidates out : list nat) (top_k : Z) :
  0 <= top_k ->
  rerank eqv rk h query candidates top_k = Return (out, h') ->
  len out <= top_k
  /\ (forall r, r ∈ out -> r ∈ candidates)
  /\ (forall r, text_of h' r = text_of h r)
  /\ (rk = NoOpReranker -> out = take (Z.to_nat top_k) candidates)
  /\ (NoDup (map (text_of h) candidates) ->
      reports_texts rk h query candidates top_k ->
      NoDup (map (text_of h') out)).
Proof.
  intros Hk Hr. destruct rk as [|model]; simpl in Hr.
  - injection Hr as <- <-. repeat split.
    + by apply slice_to_len.
    + intros r Hin. eapply elem_of_sublist; [exact Hin|apply slice_to_sublist].
    + intros _. by apply slice_to_take.
    + intros Hnd _. apply (sublist_NoDup _ (map (text_of h) candidates)); [exact Hnd|].
      apply sublist_map, slice_to_sublist.
  - destruct (model query (map (text_of h) candidates) top_k) as [results|] eqn:Hm;
      [|discriminate].
    destruct (colbert_rerank_spec eqv results h candidates top_k Hk)
      as (Hlen & Hmem & Htext & Hnd).
    destruct (colbert_rerank eqv results h candidates top_k) as [out0 h0].
    injection Hr as <- <-. simpl in *. repeat split; try done.
    intros Hc Hrep. rewrite (map_text_ext h h0 out0 Htext). apply Hnd; [done|].
    by apply Hrep.
Qed.

(** ** The reranker claim *)




(** ** The pipeline claims *)

(** C7: [answer("")] raises the validation error and nothing else
    happens: no retrieval, rerank, generation or metrics call is made and
    the metrics table is unchanged. *)
Theorem answer_empty_query (eqv : RetrievalResult -> RetrievalResult -> bool)
    (w : World) (settings : Settings) (rk : Reranker) (rows : list MetricsRow)
    (requested_top_k : option Z) :
  answer eqv w settings rk rows [] requested_top_k
  = {| answer_result := Raise ValueError; events := []; metrics_rows := rows |}.
Proof. reflexivity. Qed.

(** The same holds for a query of white space only. *)
Lemma answer_blank_query (eqv : RetrievalResult -> RetrievalResult -> bool)
    (w : World) (settings : Settings) (rk : Reranker) (rows : list MetricsRow)
    (query : str) (requested_top_k : option Z) :
  strip query = [] ->
  answer eqv w settings rk rows query requested_top_k
  = {| answer_result := Raise ValueError; events := []; metrics_rows := rows |}.
Proof. intros H. unfold answer. by rewrite H. Qed.

(** The calls of [answer] on a query that is not blank: the search comes
    first, at the amplified depth, and is the only search. *)
Lemma answer_events (eqv : RetrievalResult -> RetrievalResult -> bool)
    (w : World) (settings : Settings) (rk : Reranker) (rows : list MetricsRow)
    (query : str) (requested_top_k : option Z) :
  truthy (strip query) = true ->
  exists rest,
    events (answer eqv w settings rk rows query requested_top_k)
    = Search query (Z.max (rerank_top_k settings)
                          (top_k_or requested_top_k (top_k settings))) :: rest
    /\ Forall (fun e => is_search e = false) rest.
Proof.
  intros Hq. unfold answer. rewrite Hq. simpl.
  destruct (retrieve _ _ _) as [results|e]; [|by eexists].
  destruct (rerank _ _ _ _ _ _) as [[reranked h']|e].
  - destruct (generate_answer w query _) as [[text cites]|];
      destruct (is_colbert rk); simpl; eexists; split; try reflexivity;
      repeat constructor.
  - destruct (is_colbert rk); simpl; eexists; split; try reflexivity;
      repeat constructor.
Qed.

(** C3, as stated, fails: with [settings.top_k = 20] and
    [rerank_top_k = 12], [answer(q, top_k=0)] searches the index for 20
    candidates and not for [max(12, 0) = 12]: on an index that answers
    only a search for 12 candidates the call fails, on an index that
    answers only a search for 20 candidates it returns. *)
Lemma answer_zero_top_k_depth :
  Z.max (rerank_top_k wide_settings) 0 = 12
  /\ answer_result (answer (fun _ _ => false) (with_index sample_world (index_at 12))
                      wide_settings NoOpReranker [] (py "why?") (Some 0))
     = Raise ExternalError
  /\ (exists ans,
        answer_result (answer (fun _ _ => false) (with_index sample_world (index_at 20))
                         wide_settings NoOpReranker [] (py "why?") (Some 0))
        = Return ans)
  /\ hd_error (events (answer (fun _ _ => false) sample_world wide_settings
                         NoOpReranker [] (py "why?") (Some 0)))
     = Some (Search (py "why?") 20).
Proof.
  split; [reflexivity|]. split; [reflexivity|]. split; [|reflexivity].
  eexists. reflexivity.
Qed.

(** C3, amended: on every query that passes validation, the retrieval
    stage requests exactly [max(rerank_top_k, k)] candidates from the
    vector index, where [k] is the requested [top_k] when one is given and
    is not 0, and the configured [settings.top_k] otherwise (the code
    evaluates [top_k or settings.top_k], so that [top_k=0] counts as not
    given).  The search for that many candidates is the first call and
    the only search: its failure is the failure of [answer], a returning
    [answer] has got hits from it, and [answer] depends on the index only
    through the reply to this one search.  With [top_k=3] and
    [rerank_top_k=12] the depth is 12. *)
Theorem answer_retrieval_depth (eqv : RetrievalResult -> RetrievalResult -> bool)
    (w : World) (settings : Settings) (rk : Reranker) (rows : list MetricsRow)
    (query : str) (requested_top_k : option Z) :
  truthy (strip query) = true ->
  (similarity_search_with_score w query
     (Z.max (rerank_top_k settings) (top_k_or requested_top_k (top_k settings))) = None ->
   answer eqv w settings rk rows query requested_top_k
   = {| answer_result := Raise ExternalError;
        events := [Search query (Z.max (rerank_top_k settings)
                                       (top_k_or requested_top_k (top_k settings)))];
        metrics_rows := rows |})
  /\ (forall ans,
        answer_result (answer eqv w settings rk rows query requested_top_k) = Return ans ->
        exists hits results,
          similarity_search_with_score w query
            (Z.max (rerank_top_k settings) (top_k_or requested_top_k (top_k settings)))
          = Some hits
          /\ wrap_hits hits = Return results)
  /\ (forall search,
        search query
          (Z.max (rerank_top_k settings) (top_k_or requested_top_k (top_k settings)))
        = similarity_search_with_score w query
            (Z.max (rerank_top_k settings) (top_k_or requested_top_k (top_k settings))) ->
        answer eqv (with_index w search) settings rk rows query requested_top_k
        = answer eqv w settings rk rows query requested_top_k)
  /\ (exists rest,
        events (answer eqv w settings rk rows query requested_top_k)
        = Search query (Z.max (rerank_top_k settings)
                              (top_k_or requested_top_k (top_k settings))) :: rest
        /\ Forall (fun e => is_search e = false) rest)
  /\ (forall k, requested_top_k = Some k -> k <> 0 ->
        Z.max (rerank_top_k settings) (top_k_or requested_top_k (top_k settings))
        = Z.max (rerank_top_k settings) k)
  /\ (requested_top_k = None \/ requested_top_k = Some 0 ->
        Z.max (rerank_top_k settings) (top_k_or requested_top_k (top_k settings))
        = Z.max (rerank_top_k settings) (top_k settings))
  /\ (requested_top_k = Some 3 -> rerank_top_k settings = 12 ->
      Z.max (rerank_top_k settings) (top_k_or requested_top_k (top_k settings)) = 12).
Proof.
  intros Hq. split; [|split; [|split; [|split; [by apply answer_events|]]]].
  - intros Hnone. unfold answer, retrieve. by rewrite Hq, Hnone.
  - intros ans. unfold answer, retrieve. rewrite Hq. simpl.
    destruct (similarity_search_with_score w query _) as [hits|]; [|discriminate].
    destruct (wrap_hits hits) as [results|e] eqn:Hwrap; [|discriminate].
    intros _. by exists hits, results.
  - intros search Hs. unfold answer, retrieve. rewrite Hq. simpl. by rewrite Hs.
  - repeat split.
    + intros k -> Hk. simpl. destruct (k =? 0) eqn:E; [lia|done].
    + by intros [->| ->].
    + intros -> ->. reflexivity.
Qed.

Lemma answer_retrieval_depth_witness :
  truthy (strip (py "why?")) = true
  /\ (exists ans,
        answer_result (answer (fun _ _ => false) sample_world sample_settings
                         NoOpReranker [] (py "why?") (Some 3)) = Return ans)
  /\ (exists hits results,
        similarity_search_with_score sample_world (py "why?") 12 = Some hits
        /\ wrap_hits hits = Return results)
  /\ (exists rest,
        events (answer (fun _ _ => false) sample_world sample_settings NoOpReranker []
                  (py "why?") (Some 3))
        = Search (py "why?") 12 :: rest
        /\ Forall (fun e => is_search e = false) rest).
Proof.
  split; [reflexivity|]. split; [eexists; reflexivity|].
  pose proof (answer_retrieval_depth (fun _ _ => false) sample_world sample_settings
                NoOpReranker [] (py "why?") (Some 3) eq_refl)
    as (_ & Hhits & _ & Hev & _).
  split; [exact (Hhits _ eq_refl)|exact Hev].
Defined.

(** C10, as stated, fails: the recorded [retrieved_k] can exceed the
    requested top-K.  On an index of four passages, with
    [settings.top_k = 5], [answer(q, top_k=0)] passes four results to the
    generator and records [retrieved_k = 4], and [answer(q, top_k=-1)]
    passes three and records 3. *)
Lemma answer_records_more_than_requested :
  (exists ans row,
     answer_result (answer (fun _ _ => false) sample_world sample_settings
                      NoOpReranker [] (py "why?") (Some 0)) = Return ans
     /\ metrics_rows (answer (fun _ _ => false) sample_world sample_settings
                        NoOpReranker [] (py "why?") (Some 0)) = [row]
     /\ len (contexts ans) = 4 /\ retrieved_k row = 4 /\ ~ retrieved_k row <= 0)
  /\ (exists ans row,
        answer_result (answer (fun _ _ => false) sample_world sample_settings
                         NoOpReranker [] (py "why?") (Some (-1))) = Return ans
        /\ metrics_rows (answer (fun _ _ => false) sample_world sample_settings
                           NoOpReranker [] (py "why?") (Some (-1))) = [row]
        /\ len (contexts ans) = 3 /\ retrieved_k row = 3 /\ ~ retrieved_k row <= -1).
Proof.
  split; eexists _, _; (split; [reflexivity|]); (split; [reflexivity|]);
    (split; [reflexivity|]); (split; [reflexivity|]);
    intros H; vm_compute in H; by apply H.
Qed.

(** C10, amended: when [answer] returns, the row it records has
    [retrieved_k] equal to the number of reranked results that it passed
    to the generator, which is also the number of contexts of the answer;
    the answer carries the generator's reply on these results, and the row
    is appended to the metrics table when the insert succeeds (and lost
    when it fails).  The number is at most [k], where [k] is the requested
    [top_k] when one is given and is not 0, and [settings.top_k]
    otherwise, provided that [k >= 0]; this holds whatever depth the index
    was searched at. *)
Theorem answer_records_reranked_count
    (eqv : RetrievalResult -> RetrievalResult -> bool)
    (w : World) (settings : Settings) (rk : Reranker) (rows : list MetricsRow)
    (query : str) (requested_top_k : option Z) (ans : Answer) :
  answer_result (answer eqv w settings rk rows query requested_top_k) = Return ans ->
  exists passed row,
    generate_answer w query passed = Some (answer_text ans, citations ans)
    /\ contexts ans = map context_item passed
    /\ retrieved_k row = len passed
    /\ row_query row = query
    /\ metrics_rows (answer eqv w settings rk rows query requested_top_k)
       = (if insert_ok w then rows ++ [row] else rows)
    /\ (exists before,
          events (answer eqv w settings rk rows query requested_top_k)
          = before ++ [Generate query passed; RecordMetrics row])
    /\ (forall k, requested_top_k = Some k -> 0 < k -> retrieved_k row <= k)
    /\ (requested_top_k = None \/ requested_top_k = Some 0 ->
        0 <= top_k settings -> retrieved_k row <= top_k settings).
Proof.
  unfold answer. destruct (negb (truthy (strip query))); [discriminate|].
  simpl.
  destruct (retrieve _ _ _) as [results|e]; [|discriminate].
  set (k := top_k_or requested_top_k (top_k settings)).
  set (h := annotate (py "retrieval_rank") 1 _ (store_of results)).
  set (candidates := seq 0 (length results)).
  destruct (rerank eqv rk h query candidates k) as [[reranked h']|e] eqn:Hr;
    [|discriminate].
  destruct (generate_answer w query _) as [[text cites]|] eqn:Hgen; [|discriminate].
  simpl. intros Hans. injection Hans as <-.
  assert (Hbound : 0 <= k -> len reranked <= k).
  { intros Hk. by destruct (rerank_spec eqv rk h h' query candidates reranked k Hk Hr). }
  exists (map (annotate (py "rerank_rank") 1 reranked h') reranked),
    {| row_query := query;
       row_latency_ms := measured_total_ms w;
       row_retrieval_ms := measured_retrieval_ms w;
       row_generation_ms := measured_generation_ms w;
       retrieved_k := len reranked;
       row_status := py "success" |}.
  split; [exact Hgen|]. simpl.
  split; [done|]. split; [by unfold len; rewrite length_map|]. split; [done|].
  split; [done|]. split.
  { eexists. rewrite <- app_assoc. reflexivity. }
  split.
  - intros k0 Hk0 Hpos. subst requested_top_k. unfold k, top_k_or in Hbound.
    destruct (k0 =? 0) eqn:E; [lia|]. apply Hbound. lia.
  - intros Hreq Hk.
    assert (Hkk : k = top_k settings) by (unfold k; by destruct Hreq as [->| ->]).
    rewrite Hkk in Hbound. by apply Hbound.
Qed.

Lemma answer_records_reranked_count_witness :
  answer_result sample_run = Return sample_answer
  /\ exists passed row,
       generate_answer sample_world (py "why?") passed
       = Some (answer_text sample_answer, citations sample_answer)
       /\ contexts sample_answer = map context_item passed
       /\ retrieved_k row = len passed
       /\ metrics_rows sample_run = [row]
       /\ retrieved_k row <= 2.
Proof.
  split; [reflexivity|].
  destruct (answer_records_reranked_count (fun _ _ => false) sample_world sample_settings
              NoOpReranker [] (py "why?") (Some 2) sample_answer eq_refl)
    as (passed & row & Hgen & Hctx & Hk & _ & Hrows & _ & Hbound & _).
  exists passed, row. split; [exact Hgen|]. split; [exact Hctx|]. split; [exact Hk|].
  split; [exact Hrows|]. apply (Hbound 2 eq_refl). lia.
Defined.

(** In the sample run the index is searched at depth 12 and returns four
    passages, two results are passed on, and [retrieved_k] is 2. *)
Example sample_run_retrieved_k :
  exists passed row,
    events sample_run
    = [Search (py "why?") 12; Generate (py "why?") passed; RecordMetrics row]
    /\ len passed = 2 /\ retrieved_k row = 2.
Proof. eexists _, _. vm_compute. repeat split. Qed.

(** * Further properties of the code *)

(** ** Sentence splitting *)

(** Every piece of [sep_split] but the last holds a terminator, the last
    holds none. *)
Lemma sep_split_shape (s : str) :
  exists ps q, sep_split s = ps ++ [q]
               /\ Forall (fun p => sep_search p = true) ps
               /\ sep_search q = false.
Proof.
  induction s as [|c rest (ps & q & Heq & Hps & Hq)]; simpl.
  - exists [], []. done.
  - destruct (is_terminator c) eqn:Hc.
    + exists ([c] :: ps), q. rewrite Heq. repeat split; [|done].
      constructor; [|done]. unfold sep_search. simpl. by rewrite Hc.
    + rewrite Heq. destruct ps as [|p ps]; simpl.
      * exists [], (c :: q). repeat split; [constructor|].
        unfold sep_search in *. simpl. by rewrite Hc.
      * exists ((c :: p) :: ps), q. apply Forall_cons in Hps as [Hp Hps].
        repeat split; [|done]. constructor; [|done].
        unfold sep_search in *. simpl. by rewrite Hc.
Qed.

Lemma split_fold_terminated (ps : list str) (sentences : list str) :
  Forall (fun p => sep_search p = true) ps ->
  fold_left split_step ps (sentences, [])
  = (sentences ++ map strip (filter (fun part => truthy (strip part)) ps), []).
Proof.
  revert sentences. induction ps as [|p ps IH]; intros sentences Hps; simpl.
  - by rewrite app_nil_r.
  - apply Forall_cons in Hps as [Hp Hps]. rewrite Hp.
    rewrite filter_cons. destruct (truthy (strip p)) eqn:Ht.
    + rewrite decide_True by done. rewrite IH by done. simpl.
      by rewrite <- app_assoc.
    + rewrite decide_False by (by intros []). by rewrite IH.
Qed.

(** The loop with its buffer computes the stripped pieces. *)
Lemma split_sentences_stripped (s : str) :
  _split_sentences s
  = match stripped_pieces s with
    | [] => [s]
    | sentences => sentences
    end.
Proof.
  unfold _split_sentences, stripped_pieces.
  destruct (sep_split_shape s) as (ps & q & -> & Hps & Hq).
  rewrite fold_left_app, split_fold_terminated by done. simpl.
  rewrite filter_app, map_app, filter_cons, filter_nil. rewrite Hq.
  destruct (truthy (strip q)) eqn:Ht.
  - rewrite decide_True by done. simpl. rewrite Ht.
    by destruct (_ ++ [strip q]).
  - rewrite decide_False by (by intros []). simpl. rewrite app_nil_r.
    change (truthy (strip [])) with false. simpl.
    by destruct (map strip _).
Qed.

(** X1: the sentences of a text are its stripped non-blank pieces, in
    order, or the text itself when it has none: the buffer of
    [_split_sentences] never carries a piece over to the next one. *)
Theorem split_sentences_pieces (s : str) :
  _split_sentences s
  = match stripped_pieces s with
    | [] => [s]
    | sentences => sentences
    end.
Proof. apply split_sentences_stripped. Qed.










(** ** Chunking: windows, counts and overlap *)

Lemma is_window_more (all : list str) (c : DocumentChunk) (w more : list str) :
  is_window all c w -> is_window (all ++ more) c w.
Proof.
  intros (pre & post & -> & Ht). exists pre, (post ++ more).
  split; [by rewrite <- !app_assoc|done].
Qed.

Lemma window_inv_init (document : RawDocument) : window_inv document [] chunk_init.
Proof.
  constructor; simpl.
  - by exists [].
  - constructor.
  - intros s Hs. by apply elem_of_nil in Hs.
  - done.
  - intros i c Hc. by rewrite lookup_nil in Hc.
Qed.

Lemma window_inv_flush (document : RawDocument) (processed : list str)
    (st : ChunkState) (dropped kept : list str) (cl : Z) :
  window_inv document processed st ->
  current_chunk st <> [] ->
  current_chunk st = dropped ++ kept ->
  window_inv document processed
    {| chunks := chunks st ++ [make_chunk document st];
       text_cursor := text_cursor st;
       chunk_index := S (chunk_index st);
       current_chunk := kept;
       current_length := cl |}.
Proof.
  intros [(pre & Hpre) Hch Hcov Hidx Hf] Hne Hkept.
  assert (Hnew : is_window processed (make_chunk document st) (current_chunk st)).
  { exists pre, []. by rewrite app_nil_r. }
  constructor; simpl.
  - exists (pre ++ dropped). by rewrite Hpre, Hkept, app_assoc.
  - apply Forall_app. split; [done|]. constructor; [|constructor]. eauto.
  - intros s Hs. right. destruct (Hcov s Hs) as [Hin|(c & w & Hc & Hw & Hsw)].
    + exists (make_chunk document st), (current_chunk st).
      split; [|done]. apply elem_of_app. right. left.
    + exists c, w. split; [|done]. apply elem_of_app. by left.
  - rewrite length_app. simpl. lia.
  - intros i c Hc.
    destruct (decide (i < length (chunks st))%nat) as [Hlt|Hge].
    + rewrite lookup_app_l in Hc by done. by apply Hf.
    + rewrite lookup_app_r in Hc by lia.
      destruct (i - length (chunks st))%nat as [|n] eqn:E; simpl in Hc;
        [|by rewrite lookup_nil in Hc].
      injection Hc as <-. assert (i = chunk_index st) as -> by lia. done.
Qed.

Lemma window_inv_append (document : RawDocument) (processed : list str)
    (st : ChunkState) (sentence : str) (cursor cl : Z) :
  window_inv document processed st ->
  window_inv document (processed ++ [sentence])
    {| chunks := chunks st;
       text_cursor := cursor;
       chunk_index := chunk_index st;
       current_chunk := current_chunk st ++ [sentence];
       current_length := cl |}.
Proof.
  intros [(pre & Hpre) Hch Hcov Hidx Hf].
  constructor; simpl; try done.
  - exists pre. by rewrite Hpre, app_assoc.
  - eapply Forall_impl; [exact Hch|]. simpl. intros c (w & Hw & Hwin).
    exists w. split; [done|]. by apply is_window_more.
  - intros s Hs. apply elem_of_app in Hs as [Hs|Hs].
    + destruct (Hcov s Hs) as [Hin|(c & w & Hc & Hw & Hsw)].
      * left. apply elem_of_app. by left.
      * right. exists c, w. split; [done|]. split; [|done]. by apply is_window_more.
    + left. apply elem_of_app. by right.
Qed.

Lemma window_inv_step (document : RawDocument) (chunk_size overlap : Z)
    (processed : list str) (st : ChunkState) (sentence : str) :
  window_inv document processed st ->
  window_inv document (processed ++ [sentence])
    (chunk_step document chunk_size overlap st sentence).
Proof.
  intros Hinv. unfold chunk_step.
  destruct (chunk_size <? current_length st + len sentence); simpl;
    [|by apply window_inv_append].
  case_bool_decide as Hcc; simpl; [by apply window_inv_append|].
  destruct (shrink_suffix overlap (current_chunk st) (current_length st)) as (dropped & Hd).
  destruct (shrink overlap (current_chunk st) (current_length st)) as [kept cl'].
  simpl in Hd.
  apply (window_inv_append document processed _ sentence).
  by eapply window_inv_flush.
Qed.

Lemma window_inv_fold (document : RawDocument) (chunk_size overlap : Z)
    (sentences processed : list str) (st : ChunkState) :
  window_inv document processed st ->
  window_inv document (processed ++ sentences)
    (fold_left (chunk_step document chunk_size overlap) sentences st).
Proof.
  revert processed st. induction sentences as [|s sentences IH]; intros processed st Hinv.
  - by rewrite app_nil_r.
  - simpl. replace (processed ++ s :: sentences) with ((processed ++ [s]) ++ sentences)
      by (by rewrite <- app_assoc).
    by apply IH, window_inv_step.
Qed.

Lemma chunk_step_window (document : RawDocument) (chunk_size overlap : Z)
    (st : ChunkState) (sentence : str) :
  current_chunk (chunk_step document chunk_size overlap st sentence) <> [].
Proof.
  unfold chunk_step.
  destruct (_ && _); [destruct (shrink _ _ _)|]; simpl; by intros ?%app_eq_nil%proj2.
Qed.

Lemma chunk_fold_window (document : RawDocument) (chunk_size overlap : Z)
    (sentences : list str) (st : ChunkState) :
  sentences <> [] ->
  current_chunk (fold_left (chunk_step document chunk_size overlap) sentences st) <> [].
Proof.
  revert st. induction sentences as [|s [|s' rest] IH]; intros st Hne; [done|..].
  - simpl. apply chunk_step_window.
  - apply (IH (chunk_step document chunk_size overlap st s)). done.
Qed.

Lemma chunk_step_count (document : RawDocument) (chunk_size overlap : Z)
    (st : ChunkState) (sentence : str) (n : nat) :
  (length (chunks st) + (if current_chunk st is [] then 0 else 1) <= n)%nat ->
  (length (chunks (chunk_step document chunk_size overlap st sentence))
   + (if current_chunk (chunk_step document chunk_size overlap st sentence) is []
      then 0 else 1)
   <= S n)%nat.
Proof.
  intros Hn.
  pose proof (chunk_step_window document chunk_size overlap st sentence) as Hw.
  destruct (current_chunk (chunk_step _ _ _ _ _)); [done|]. clear Hw.
  unfold chunk_step.
  destruct (chunk_size <? current_length st + len sentence); simpl.
  - case_bool_decide as Hcc; simpl.
    + rewrite Hcc in Hn. simpl in Hn. lia.
    + destruct (shrink _ _ _). simpl. rewrite length_app. simpl.
      destruct (current_chunk st); [done|]. lia.
  - destruct (current_chunk st); simpl in *; lia.
Qed.

Lemma chunk_fold_count (document : RawDocument) (chunk_size overlap : Z)
    (sentences : list str) (st : ChunkState) (n : nat) :
  (length (chunks st) + (if current_chunk st is [] then 0 else 1) <= n)%nat ->
  (length (chunks (fold_left (chunk_step document chunk_size overlap) sentences st))
   + (if current_chunk (fold_left (chunk_step document chunk_size overlap) sentences st)
         is [] then 0 else 1)
   <= n + length sentences)%nat.
Proof.
  revert st n. induction sentences as [|s sentences IH]; intros st n Hn; simpl.
  - lia.
  - replace (n + S (length sentences))%nat with (S n + length sentences)%nat by lia.
    by apply IH, chunk_step_count.
Qed.

(** The result of [chunk_document] as the chunks of the loop's last
    state after one more flush. *)
Lemma chunk_document_final (document : RawDocument) (chunk_size overlap : Z) :
  let st := fold_left (chunk_step document chunk_size overlap)
              (_split_sentences (text document)) chunk_init in
  current_chunk st <> []
  /\ chunk_document document chunk_size overlap
     = chunks st ++ [make_chunk document st].
Proof.
  simpl. unfold chunk_document.
  pose proof (split_sentences_nonempty (text document)) as Hne.
  pose proof (chunk_fold_window document chunk_size overlap _ chunk_init Hne) as Hw.
  destruct (_split_sentences (text document)) as [|s0 rest]; [done|].
  split; [done|]. by destruct (current_chunk _).
Qed.

(** X3: a document always yields at least one chunk, and never more chunks
    than it has sentences. *)
Theorem chunk_document_count (document : RawDocument) (chunk_size overlap : Z) :
  (1 <= length (chunk_document document chunk_size overlap)
   <= length (_split_sentences (text document)))%nat.
Proof.
  destruct (chunk_document_final document chunk_size overlap) as [Hw ->].
  rewrite length_app. simpl. split; [lia|].
  pose proof (chunk_fold_count document chunk_size overlap
                (_split_sentences (text document)) chunk_init 0 (Nat.le_refl _)) as Hc.
  destruct (current_chunk _); [done|]. simpl in Hc. lia.
Qed.

(** X4: every chunk holds a non-empty run of consecutive sentences of the
    document, joined and stripped (no sentence is cut), and every
    sentence of the document is in the run of some chunk. *)
Theorem chunk_document_windows (document : RawDocument) (chunk_size overlap : Z) :
  (forall c, c ∈ chunk_document document chunk_size overlap ->
     exists w, w <> [] /\ is_window (_split_sentences (text document)) c w)
  /\ (forall s, s ∈ _split_sentences (text document) ->
        exists c w, c ∈ chunk_document document chunk_size overlap
                    /\ is_window (_split_sentences (text document)) c w /\ s ∈ w).
Proof.
  destruct (chunk_document_final document chunk_size overlap) as [Hw ->].
  pose proof (window_inv_fold document chunk_size overlap
                (_split_sentences (text document)) [] chunk_init
                (window_inv_init document)) as Hinv.
  simpl in Hinv.
  pose proof (window_inv_flush document _ _ (current_chunk _) [] 0 Hinv Hw
                (eq_sym (app_nil_r _))) as [_ Hch Hcov _ _].
  simpl in *. split.
  - intros c Hc. rewrite Forall_forall in Hch. by apply Hch.
  - intros s Hs. destruct (Hcov s Hs) as [Hin|H]; [|done]. by apply elem_of_nil in Hin.
Qed.

(** X5: the [i]-th chunk of a document carries the document's [doc_id],
    the identifier [<doc_id>_<i as 05d>], and the document's metadata with
    ["chunk_index"] set to [i]. *)
Theorem chunk_document_fields (document : RawDocument) (chunk_size overlap : Z)
    (i : nat) (c : DocumentChunk) :
  chunk_document document chunk_size overlap !! i = Some c ->
  chunk_doc_id c = doc_id document
  /\ chunk_id c = doc_id document ++ py "_" ++ format_05d i
  /\ chunk_metadata c = <[py "chunk_index" := MInt (Z.of_nat i)]> (metadata document).
Proof.
  destruct (chunk_document_final document chunk_size overlap) as [Hw ->].
  pose proof (window_inv_fold document chunk_size overlap
                (_split_sentences (text document)) [] chunk_init
                (window_inv_init document)) as Hinv.
  simpl in Hinv.
  pose proof (window_inv_flush document _ _ (current_chunk _) [] 0 Hinv Hw
                (eq_sym (app_nil_r _))) as [_ _ _ _ Hf].
  simpl in Hf. apply Hf.
Qed.

Lemma chunk_document_fields_witness :
  chunk_document (weather_doc (py "doc") ∅) 10 2 !! 1%nat
  = Some {| chunk_doc_id := py "doc"; chunk_id := py "doc_00001";
            chunk_text := sentence_two; start_index := 5; end_index := 11;
            chunk_metadata := <[py "chunk_index" := MInt 1]> ∅ |}
  /\ py "doc_00001" = py "doc" ++ py "_" ++ format_05d 1.
Proof.
  split; [reflexivity|].
  exact (proj1 (proj2 (chunk_document_fields (weather_doc (py "doc") ∅) 10 2 1 _ eq_refl))).
Defined.

(** The window left by the shrinking loop is no longer than [overlap]. *)
Lemma shrink_bound (overlap : Z) (cc : list str) :
  0 <= overlap -> sum_len (shrink overlap cc (sum_len cc)).1 <= overlap.
Proof.
  intros Ho. induction cc as [|s cc IH]; simpl; [done|].
  destruct (overlap <? len s + sum_len cc) eqn:E.
  - replace (len s + sum_len cc - len s) with (sum_len cc) by lia. exact IH.
  - simpl. lia.
Qed.

Lemma spaced_snoc (overlap : Z) (l : list DocumentChunk) (c : DocumentChunk) :
  spaced overlap l ->
  Forall (fun c' => end_index c' - overlap <= start_index c) l ->
  spaced overlap (l ++ [c]).
Proof.
  intros Hl Hc i j ci cj Hij Hi Hj.
  assert (Hi' : l !! i = Some ci).
  { apply lookup_lt_Some in Hj. rewrite length_app in Hj. simpl in Hj.
    rewrite lookup_app_l in Hi by lia. done. }
  destruct (decide (j < length l)%nat) as [Hlt|Hge].
  - rewrite lookup_app_l in Hj by done. eauto.
  - rewrite lookup_app_r in Hj by lia.
    destruct (j - length l)%nat as [|n]; simpl in Hj; [|by rewrite lookup_nil in Hj].
    injection Hj as <-. rewrite Forall_forall in Hc. apply Hc.
    by eapply list_elem_of_lookup_2.
Qed.

Lemma overlap_inv_flush (document : RawDocument) (overlap : Z) (st : ChunkState)
    (kept : list str) :
  chunk_inv document st ->
  overlap_inv overlap st ->
  sum_len kept <= sum_len (current_chunk st) ->
  sum_len kept <= overlap ->
  overlap_inv overlap
    {| chunks := chunks st ++ [make_chunk document st];
       text_cursor := text_cursor st;
       chunk_index := S (chunk_index st);
       current_chunk := kept;
       current_length := sum_len kept |}.
Proof.
  intros Hinv [Hsp Hlast] Hk Ho.
  destruct (make_chunk_bounds document st Hinv) as (Hstart & Hse & Hend).
  destruct Hinv as [Hlen _ _ _ _].
  constructor; simpl.
  - apply spaced_snoc; [done|]. eapply Forall_impl; [exact Hlast|].
    simpl. intros c Hc. lia.
  - apply Forall_app. split.
    + eapply Forall_impl; [exact Hlast|]. simpl. intros c Hc. lia.
    + constructor; [|constructor]. lia.
Qed.

Lemma overlap_inv_append (overlap : Z) (st : ChunkState) (sentence : str) :
  overlap_inv overlap st ->
  overlap_inv overlap
    {| chunks := chunks st;
       text_cursor := text_cursor st + len sentence;
       chunk_index := chunk_index st;
       current_chunk := current_chunk st ++ [sentence];
       current_length := current_length st + len sentence |}.
Proof.
  intros [Hsp Hlast]. constructor; simpl; [done|].
  eapply Forall_impl; [exact Hlast|]. simpl. intros c Hc. lia.
Qed.

Lemma overlap_inv_step (document : RawDocument) (chunk_size overlap : Z)
    (st : ChunkState) (sentence : str) :
  0 <= overlap ->
  chunk_inv document st ->
  overlap_inv overlap st ->
  overlap_inv overlap (chunk_step document chunk_size overlap st sentence).
Proof.
  intros Ho Hinv Hov. unfold chunk_step.
  destruct ((chunk_size <? current_length st + len sentence)
            && negb (bool_decide (current_chunk st = []))).
  - pose proof (shrink_sum overlap (current_chunk st) (current_length st)) as Hk.
    pose proof (shrink_bound overlap (current_chunk st) Ho) as Hb.
    rewrite <- (inv_length _ _ Hinv) in Hb.
    destruct (shrink overlap (current_chunk st) (current_length st)) as [kept cl'].
    simpl in Hk, Hb.
    apply (overlap_inv_append overlap _ sentence).
    by apply overlap_inv_flush.
  - by apply overlap_inv_append.
Qed.

Lemma overlap_inv_fold (document : RawDocument) (chunk_size overlap : Z)
    (sentences : list str) (st : ChunkState) :
  0 <= overlap ->
  chunk_inv document st ->
  overlap_inv overlap st ->
  overlap_inv overlap (fold_left (chunk_step document chunk_size overlap) sentences st).
Proof.
  intros Ho. revert st.
  induction sentences as [|s sentences IH]; intros st Hinv Hov; simpl; [done|].
  apply IH; [by apply chunk_step_inv|by apply overlap_inv_step].
Qed.

(** X6: with [overlap >= 0], a chunk starts at most [overlap] characters
    before the end of any chunk produced before it: consecutive chunks
    share no more than [overlap] characters of offsets. *)
Theorem chunk_document_overlap (document : RawDocument) (chunk_size overlap : Z) :
  0 <= overlap -> spaced overlap (chunk_document document chunk_size overlap).
Proof.
  intros Ho.
  destruct (chunk_document_final document chunk_size overlap) as [Hw ->].
  pose proof (chunk_fold_inv document chunk_size overlap
                (_split_sentences (text document)) chunk_init
                (chunk_init_inv document)) as Hinv.
  assert (Hinit : overlap_inv overlap chunk_init).
  { constructor; simpl; [|constructor]. intros i j ci cj _ Hi. by rewrite lookup_nil in Hi. }
  pose proof (overlap_inv_fold document chunk_size overlap
                (_split_sentences (text document)) chunk_init Ho
                (chunk_init_inv document) Hinit) as Hov.
  assert (Hflush := overlap_inv_flush document overlap _ [] Hinv Hov).
  simpl in Hflush.
  destruct Hflush as [Hsp _]; [apply sum_len_nonneg|done|done].
Qed.

Lemma chunk_document_overlap_witness :
  0 <= 2 /\ spaced 2 (chunk_document (weather_doc (py "doc") ∅) 10 2).
Proof.
  split; [lia|].
  apply (chunk_document_overlap (weather_doc (py "doc") ∅) 10 2). lia.
Defined.

(** ** The embedding service: batches, rows and the cache *)

Lemma read_cache_missing_texts (_hash_text : str -> str) (cache : gmap str (list Z))
    (idx : nat) (texts : list str) :
  (read_cache _hash_text cache idx texts).1.2 = uncached _hash_text cache texts.
Proof.
  unfold uncached. revert idx. induction texts as [|t texts IH]; intros idx; simpl; [done|].
  specialize (IH (S idx)).
  destruct (read_cache _hash_text cache (S idx) texts) as [[embs mt] mi].
  simpl in IH. rewrite filter_cons. case_decide as Hd.
  - rewrite Hd. simpl. by rewrite IH.
  - by destruct (cache !! _hash_text t).
Qed.

Lemma read_cache_lengths (_hash_text : str -> str) (cache : gmap str (list Z))
    (idx : nat) (texts : list str) :
  length (read_cache _hash_text cache idx texts).1.2
  = length (read_cache _hash_text cache idx texts).2.
Proof.
  revert idx. induction texts as [|t texts IH]; intros idx; simpl; [done|].
  specialize (IH (S idx)).
  destruct (read_cache _hash_text cache (S idx) texts) as [[embs mt] mi].
  simpl in IH. destruct (cache !! _hash_text t); simpl; by rewrite ?IH.
Qed.

(** X8: one call of [embed_texts] invokes the model at most once, and then
    with exactly the texts that the cache does not hold, in input order
    (repeats included); it does not invoke it when there is none. *)
Theorem embed_texts_single_batch (_hash_text : str -> str)
    (encode : list str -> option (list (list Z))) (write_ok : bool)
    (svc : EmbeddingService) (texts : list str) :
  model_calls (embed_texts _hash_text encode write_ok svc texts)
  = match uncached _hash_text (_cache svc) texts with
    | [] => []
    | batch => [batch]
    end.
Proof.
  destruct (decide (texts = [])) as [->|Hne]; [done|].
  rewrite embed_texts_nonempty by done.
  pose proof (read_cache_missing_texts _hash_text (_cache svc) 0 texts) as Hm.
  destruct (read_cache _hash_text (_cache svc) 0 texts) as [[embs mt] mi].
  simpl in Hm. rewrite <- Hm.
  destruct mt as [|m0 mt0]; [done|].
  destruct (encode (m0 :: mt0)); [|done].
  by destruct (write_cache _ _ _ _ _ _ _) as [[?|?] ?].
Qed.

(** The state that [embed_texts] reaches when it returns: the array is
    the stack of the list [embeddings] that the two loops built. *)
Lemma embed_texts_final_inv (_hash_text : str -> str)
    (encode : list str -> option (list (list Z))) (write_ok : bool)
    (svc : EmbeddingService) (texts : list str) (rows : list (list (option Z))) :
  embed_result (embed_texts _hash_text encode write_ok svc texts) = Return rows ->
  exists embeddings,
    rows = map atleast_2d embeddings
    /\ same_width rows = true
    /\ cache_inv _hash_text (_cache svc) texts embeddings
         (_cache (embed_service (embed_texts _hash_text encode write_ok svc texts))).
Proof.
  intros H.
  assert (Hne : texts <> []) by (intros ->; discriminate H).
  rewrite embed_texts_nonempty in * by done.
  pose proof (read_cache_embeddings _hash_text (_cache svc) 0 texts) as Hembs.
  pose proof (read_cache_missing _hash_text (_cache svc) 0 texts) as Hmiss.
  destruct (read_cache _hash_text (_cache svc) 0 texts) as [[embs mt] mi].
  simpl in Hembs, Hmiss. subst embs.
  assert (Hmiss' : Forall (fun i => exists t, texts !! i = Some t
                      /\ _cache svc !! _hash_text t = None) mi).
  { eapply Forall_impl; [exact Hmiss|]. simpl. intros i (t & _ & Hl & Hc).
    rewrite Nat.sub_0_r in Hl. eauto. }
  pose proof (cache_inv_init _hash_text (_cache svc) texts) as Hinit.
  destruct mt as [|m0 mt0].
  - simpl in *. apply vstack_Return in H as [-> Hw]. eauto.
  - destruct (encode (m0 :: mt0)) as [new_embeds|]; [|discriminate].
    destruct (write_cache _ _ _ _ _ _ _) as [[embs'|e] svc'] eqn:Hw; [|discriminate].
    simpl in *. rewrite save_cache_cache.
    apply vstack_Return in H as [-> Hsw]. exists embs'.
    split; [done|]. split; [done|]. by eapply write_cache_inv.
Qed.

(** X9: when [embed_texts] returns, it returns one row per input text, in
    input order, all rows of one width; the row of a text that the cache
    held before the call is the cached vector. *)
Theorem embed_texts_rows (_hash_text : str -> str)
    (encode : list str -> option (list (list Z))) (write_ok : bool)
    (svc : EmbeddingService) (texts : list str) (rows : list (list (option Z))) :
  embed_result (embed_texts _hash_text encode write_ok svc texts) = Return rows ->
  length rows = length texts
  /\ (forall r r', r ∈ rows -> r' ∈ rows -> length r = length r')
  /\ (forall i t v, texts !! i = Some t -> _cache svc !! _hash_text t = Some v ->
        rows !! i = Some (map Some v)).
Proof.
  intros H.
  destruct (embed_texts_final_inv _ _ _ _ _ _ H) as (embs & -> & Hw & [Hlen _ _ Hh]).
  rewrite length_map. split; [done|]. split.
  { intros r r'. by apply same_width_all. }
  intros i t v Ht Hv. by rewrite lookup_map, (Hh i t v Ht Hv).
Qed.

Lemma embed_texts_rows_witness :
  embed_result (embed_texts id pointwise_model true warm_service [py "b"; py "a"])
  = Return (float_rows [[98; 0; 0; 0]; [7; 7; 7; 7]])
  /\ length (float_rows [[98; 0; 0; 0]; [7; 7; 7; 7]]) = length [py "b"; py "a"]
  /\ (forall i t v, [py "b"; py "a"] !! i = Some t ->
        _cache warm_service !! id t = Some v ->
        float_rows [[98; 0; 0; 0]; [7; 7; 7; 7]] !! i = Some (map Some v)).
Proof.
  split; [reflexivity|].
  pose proof (embed_texts_rows id pointwise_model true warm_service
                [py "b"; py "a"] (float_rows [[98; 0; 0; 0]; [7; 7; 7; 7]]) eq_refl) as H.
  exact (conj (proj1 H) (proj2 (proj2 H))).
Defined.

Lemma write_cache_keeps (_hash_text : str -> str) (orig : gmap str (list Z))
    (texts : list str) (missing_indices : list nat) (new_embeds : list (list Z)) :
  Forall (fun i => exists t, texts !! i = Some t /\ orig !! _hash_text t = None)
         missing_indices ->
  forall offset embeddings svc,
    (forall k v, orig !! k = Some v -> _cache svc !! k = Some v) ->
    forall k v, orig !! k = Some v ->
      _cache (write_cache _hash_text texts missing_indices offset new_embeds
                embeddings svc).2 !! k = Some v.
Proof.
  intros Hmiss.
  induction new_embeds as [|embed rest IH]; intros offset embeddings svc Hsvc k v Hk;
    simpl.
  - by apply Hsvc.
  - destruct (missing_indices !! offset) as [target|] eqn:Ht; simpl; [|by apply Hsvc].
    destruct (texts !! target) as [t|] eqn:Htext; simpl; [|by apply Hsvc].
    apply IH; [|done]. simpl. intros k' v' Hk'.
    rewrite Forall_forall in Hmiss.
    destruct (Hmiss target) as (t' & Ht' & Hnone); [by eapply list_elem_of_lookup_2|].
    assert (t' = t) by congruence. subst t'.
    rewrite lookup_insert_ne by congruence. by apply Hsvc.
Qed.

(** X10: [embed_texts] never changes or removes an entry that the cache
    holds: whatever the call does (return, model failure, error half-way
    through the update), every key keeps the vector it had. *)
Theorem embed_texts_keeps_entries (_hash_text : str -> str)
    (encode : list str -> option (list (list Z))) (write_ok : bool)
    (svc : EmbeddingService) (texts : list str) (k : str) (v : list Z) :
  _cache svc !! k = Some v ->
  _cache (embed_service (embed_texts _hash_text encode write_ok svc texts)) !! k
  = Some v.
Proof.
  intros Hk.
  destruct (decide (texts = [])) as [->|Hne]; [done|].
  rewrite embed_texts_nonempty by done.
  pose proof (read_cache_missing _hash_text (_cache svc) 0 texts) as Hmiss.
  destruct (read_cache _hash_text (_cache svc) 0 texts) as [[embs mt] mi].
  simpl in Hmiss.
  assert (Hmiss' : Forall (fun i => exists t, texts !! i = Some t
                      /\ _cache svc !! _hash_text t = None) mi).
  { eapply Forall_impl; [exact Hmiss|]. simpl. intros i (t & _ & Hl & Hc).
    rewrite Nat.sub_0_r in Hl. eauto. }
  destruct mt as [|m0 mt0]; [done|].
  destruct (encode (m0 :: mt0)) as [new_embeds|]; [|done].
  pose proof (write_cache_keeps _hash_text (_cache svc) texts mi new_embeds Hmiss'
                0%nat embs svc (fun _ _ H => H) k v Hk) as Hkeep.
  destruct (write_cache _ _ _ _ _ _ _) as [[embs'|e] svc']; simpl in *; [|done].
  by rewrite save_cache_cache.
Qed.

Lemma embed_texts_keeps_entries_witness :
  _cache warm_service !! py "a" = Some [7; 7; 7; 7]
  /\ _cache (embed_service (embed_texts id overlong_model true warm_service
                              [py "b"; py "a"])) !! py "a" = Some [7; 7; 7; 7].
Proof.
  split; [reflexivity|].
  exact (embed_texts_keeps_entries id overlong_model true warm_service
           [py "b"; py "a"] (py "a") [7; 7; 7; 7] eq_refl).
Defined.

Lemma write_cache_dirty_stays (_hash_text : str -> str) (texts : list str)
    (missing_indices : list nat) (new_embeds : list (list Z)) :
  forall offset embeddings svc,
    _cache_dirty svc = true ->
    _cache_dirty (write_cache _hash_text texts missing_indices offset new_embeds
                    embeddings svc).2 = true.
Proof.
  induction new_embeds as [|embed rest IH]; intros offset embeddings svc Hd; simpl; [done|].
  destruct (missing_indices !! offset) as [target|]; simpl; [|done].
  destruct (texts !! target) as [t|]; simpl; [|done].
  by apply IH.
Qed.

Lemma write_cache_dirty (_hash_text : str -> str) (texts : list str)
    (missing_indices : list nat) (new_embeds : list (list Z)) (offset : nat)
    (embeddings embeddings' : list (option (list Z))) (svc svc' : EmbeddingService) :
  new_embeds <> [] ->
  write_cache _hash_text texts missing_indices offset new_embeds embeddings svc
  = (Return embeddings', svc') ->
  _cache_dirty svc' = true.
Proof.
  destruct new_embeds as [|embed rest]; [done|]. intros _ H. simpl in H.
  destruct (missing_indices !! offset) as [target|]; [|discriminate].
  destruct (texts !! target) as [t|]; [|discriminate].
  pose proof (write_cache_dirty_stays _hash_text texts missing_indices rest (S offset)
                (<[target := Some embed]> embeddings)
                {| _cache := <[_hash_text t := embed]> (_cache svc);
                   _cache_dirty := true |} eq_refl) as Hd.
  by rewrite H in Hd.
Qed.

(** X11: when [embed_texts] returns an array of floats (no [None] row is
    left, as it is when the model returns a row for every text of the
    batch), the cache holds a vector for every input text.  If some text
    was missing, the dirty flag is afterwards cleared when the snapshot
    could be written and set when it could not; if none was missing, the
    service is exactly as before (nothing is written or saved). *)
Theorem embed_texts_fills_cache (_hash_text : str -> str)
    (encode : list str -> option (list (list Z))) (write_ok : bool)
    (svc : EmbeddingService) (texts : list str) (rows : list (list Z)) :
  embed_result (embed_texts _hash_text encode write_ok svc texts)
  = Return (float_rows rows) ->
  (forall t, t ∈ texts ->
     is_Some (_cache (embed_service (embed_texts _hash_text encode write_ok svc texts))
                !! _hash_text t))
  /\ (uncached _hash_text (_cache svc) texts <> [] ->
      _cache_dirty (embed_service (embed_texts _hash_text encode write_ok svc texts))
      = negb write_ok)
  /\ (uncached _hash_text (_cache svc) texts = [] ->
      embed_service (embed_texts _hash_text encode write_ok svc texts) = svc).
Proof.
  intros H. split.
  { destruct (embed_texts_cached _ _ _ _ _ _ H) as (_ & _ & _ & Hall).
    intros t Ht. apply list_elem_of_lookup_1 in Ht as [i Hi].
    destruct (Hall i t Hi) as (j & tj & v & _ & _ & _ & Hc). by exists v. }
  assert (Hne : texts <> []) by (intros ->; discriminate H).
  rewrite embed_texts_nonempty in * by done.
  pose proof (read_cache_missing_texts _hash_text (_cache svc) 0 texts) as Hm.
  pose proof (read_cache_embeddings _hash_text (_cache svc) 0 texts) as Hembs.
  destruct (read_cache _hash_text (_cache svc) 0 texts) as [[embs mt] mi].
  simpl in Hm, Hembs. rewrite <- Hm.
  destruct mt as [|m0 mt0]; [done|].
  split; [|done]. intros _.
  destruct (encode (m0 :: mt0)) as [new_embeds|]; [|discriminate].
  destruct (write_cache _ _ _ _ _ _ _) as [[embs'|e] svc'] eqn:Hw; [|discriminate].
  simpl in *.
  assert (Hnew : new_embeds <> []).
  { intros ->. simpl in Hw. injection Hw as <- <-.
    apply vstack_floats in H.
    assert (Hin : m0 ∈ uncached _hash_text (_cache svc) texts) by (rewrite <- Hm; left).
    unfold uncached in Hin. apply list_elem_of_filter in Hin as [Hn Hin].
    assert (Hnone : None ∈ embs).
    { rewrite Hembs. apply elem_of_map. exists m0. by split. }
    rewrite H in Hnone. apply elem_of_map in Hnone as (r & Hr & _). discriminate Hr. }
  pose proof (write_cache_dirty _ _ _ _ _ _ _ _ _ Hnew Hw) as Hd.
  unfold _save_cache. rewrite Hd. simpl. by destruct write_ok.
Qed.

Lemma embed_texts_fills_cache_witness :
  embed_result (embed_texts id pointwise_model false warm_service [py "b"; py "a"])
  = Return (float_rows [[98; 0; 0; 0]; [7; 7; 7; 7]])
  /\ (forall t, t ∈ [py "b"; py "a"] ->
        is_Some (_cache (embed_service (embed_texts id pointwise_model false warm_service
                                          [py "b"; py "a"])) !! id t))
  /\ (uncached id (_cache warm_service) [py "b"; py "a"] <> [] ->
      _cache_dirty (embed_service (embed_texts id pointwise_model false warm_service
                                     [py "b"; py "a"])) = negb false).
Proof.
  split; [reflexivity|].
  pose proof (embed_texts_fills_cache id pointwise_model false warm_service
                [py "b"; py "a"] [[98; 0; 0; 0]; [7; 7; 7; 7]] eq_refl) as H.
  exact (conj (proj1 H) (proj1 (proj2 H))).
Defined.

(** X12: [embed_query] is idempotent: once it has returned a vector of
    floats for a query, asking again returns the same vector from the
    cache, without invoking the model (whatever the model would do) and
    without changing the service. *)
Theorem embed_query_again (_hash_text : str -> str)
    (encode encode' : list str -> option (list (list Z))) (write_ok write_ok' : bool)
    (svc : EmbeddingService) (query : str) (v : list Z) :
  query_result (embed_query _hash_text encode write_ok svc query)
  = Return (map Some v) ->
  embed_query _hash_text encode' write_ok'
    (query_service (embed_query _hash_text encode write_ok svc query)) query
  = {| query_result := Return (map Some v);
       query_service := query_service (embed_query _hash_text encode write_ok svc query);
       query_calls := [] |}.
Proof.
  unfold embed_query. cbn [query_result query_service query_calls]. intros H.
  destruct (embed_result (embed_texts _hash_text encode write_ok svc [query]))
    as [rows|e] eqn:Hr; [|discriminate].
  destruct (embed_texts_final_inv _ _ _ _ _ _ Hr) as (embs & Hrows & _ & [Hlen _ _ _]).
  assert (Hone : length rows = 1%nat) by (by rewrite Hrows, length_map, Hlen).
  destruct rows as [|row [|row' rows]]; try discriminate.
  injection H as ->.
  rewrite (embed_texts_again _hash_text encode encode' write_ok write_ok' svc
             [query] [v] Hr); [done|].
  intros [|[|i]] [|[|j]] ti tj vi vj Hi Hj _ Hvi Hvj;
    simpl in Hi, Hj, Hvi, Hvj; congruence.
Qed.

Lemma embed_query_again_witness :
  query_result (embed_query id pointwise_model true empty_service (py "why?"))
  = Return (map Some [119; 104; 121; 63])
  /\ query_result
       (embed_query id counting_model false
          (query_service (embed_query id pointwise_model true empty_service (py "why?")))
          (py "why?"))
     = Return (map Some [119; 104; 121; 63]).
Proof.
  split; [reflexivity|].
  exact (f_equal query_result
           (embed_query_again id pointwise_model counting_model true false
              empty_service (py "why?") [119; 104; 121; 63] eq_refl)).
Defined.

(** Without a row from the model there is no vector: [embed_query]
    returns the row [[None]] of an object array, caches nothing, and asks
    the model again the next time. *)
Example embed_query_without_row :
  query_result (embed_query id (fun _ => Some []) true empty_service (py "why?"))
  = Return [None]
  /\ query_service (embed_query id (fun _ => Some []) true empty_service (py "why?"))
     = empty_service
  /\ query_calls
       (embed_query id (fun _ => Some []) true
          (query_service (embed_query id (fun _ => Some []) true empty_service
                            (py "why?")))
          (py "why?"))
     = [[py "why?"]].
Proof. repeat split. Qed.

(** Every text that the cache does not hold has its index among the
    missing indices. *)
Lemma read_cache_missing_complete (_hash_text : str -> str) (cache : gmap str (list Z))
    (idx : nat) (texts : list str) (i : nat) (t : str) :
  texts !! i = Some t -> cache !! _hash_text t = None ->
  exists j, (read_cache _hash_text cache idx texts).2 !! j = Some (idx + i)%nat.
Proof.
  revert idx i. induction texts as [|t0 texts IH]; intros idx i Ht Hc; [done|].
  simpl. specialize (IH (S idx)).
  destruct (read_cache _hash_text cache (S idx) texts) as [[embs mt] mi]. simpl in IH.
  destruct i as [|i]; simpl in Ht.
  - injection Ht as ->. rewrite Hc. simpl. exists 0%nat. simpl. f_equal. lia.
  - destruct (IH i Ht Hc) as [j Hj].
    replace (idx + S i)%nat with (S idx + i)%nat by lia.
    destruct (cache !! _hash_text t0); simpl; [by exists j|by exists (S j)].
Qed.

Lemma write_cache_overflow (_hash_text : str -> str) (texts : list str)
    (missing_indices : list nat) (new_embeds : list (list Z)) :
  Forall (fun i => is_Some (texts !! i)) missing_indices ->
  forall offset embeddings svc,
    (offset <= length missing_indices)%nat ->
    (length missing_indices - offset < length new_embeds)%nat ->
    (forall j i t, (j < offset)%nat -> missing_indices !! j = Some i ->
                   texts !! i = Some t -> is_Some (_cache svc !! _hash_text t)) ->
    (write_cache _hash_text texts missing_indices offset new_embeds embeddings svc).1
    = Raise IndexError
    /\ forall j i t, missing_indices !! j = Some i -> texts !! i = Some t ->
         is_Some (_cache (write_cache _hash_text texts missing_indices offset
                            new_embeds embeddings svc).2 !! _hash_text t).
Proof.
  intros Hmiss.
  induction new_embeds as [|embed rest IH]; intros offset embeddings svc Hle Hlt Hcov;
    simpl in *; [lia|].
  destruct (missing_indices !! offset) as [target|] eqn:Ht; simpl.
  - rewrite Forall_forall in Hmiss.
    destruct (Hmiss target) as [t Htext]; [by eapply list_elem_of_lookup_2|].
    rewrite Htext. apply lookup_lt_Some in Ht as Hlt'.
    apply IH; [lia|lia|]. simpl. intros j i t' Hj Hi Hti.
    destruct (decide (j = offset)) as [->|Hne].
    + assert (i = target) by congruence. subst i.
      assert (t' = t) by congruence. subst t'. rewrite lookup_insert_eq. by eexists.
    + apply lookup_insert_is_Some'. right. eapply Hcov; [|done..]. lia.
  - split; [done|]. apply lookup_ge_None in Ht.
    intros j i t Hj Hi. eapply Hcov; [|done..]. apply lookup_lt_Some in Hj. lia.
Qed.

(** X13: when the model returns more rows than it was given texts,
    [embed_texts] raises [IndexError] after the update loop has run out of
    missing indices: by then every input text has a cache entry and the
    dirty flag is set, and the snapshot is not written. *)
Theorem embed_texts_extra_rows (_hash_text : str -> str)
    (encode : list str -> option (list (list Z))) (write_ok : bool)
    (svc : EmbeddingService) (texts : list str) (new_embeds : list (list Z)) :
  uncached _hash_text (_cache svc) texts <> [] ->
  encode (uncached _hash_text (_cache svc) texts) = Some new_embeds ->
  (length (uncached _hash_text (_cache svc) texts) < length new_embeds)%nat ->
  embed_result (embed_texts _hash_text encode write_ok svc texts) = Raise IndexError
  /\ _cache_dirty (embed_service (embed_texts _hash_text encode write_ok svc texts))
     = true
  /\ forall t, t ∈ texts ->
       is_Some (_cache (embed_service (embed_texts _hash_text encode write_ok svc texts))
                  !! _hash_text t).
Proof.
  intros Hun Henc Hlen.
  assert (Hne : texts <> []) by (intros ->; done).
  rewrite embed_texts_nonempty by done.
  pose proof (read_cache_missing_texts _hash_text (_cache svc) 0 texts) as Hm.
  pose proof (read_cache_lengths _hash_text (_cache svc) 0 texts) as Hl.
  pose proof (read_cache_missing _hash_text (_cache svc) 0 texts) as Hmiss.
  pose proof (fun i t => read_cache_missing_complete _hash_text (_cache svc) 0 texts i t)
    as Hcomplete.
  destruct (read_cache _hash_text (_cache svc) 0 texts) as [[embs mt] mi].
  simpl in Hm, Hl, Hmiss, Hcomplete. rewrite <- Hm in *.
  destruct mt as [|m0 mt0]; [done|]. rewrite Henc.
  assert (Hmiss1 : Forall (fun i => is_Some (texts !! i)) mi).
  { eapply Forall_impl; [exact Hmiss|]. simpl. intros i (t & _ & Ht & _).
    rewrite Nat.sub_0_r in Ht. by eexists. }
  assert (Hmiss2 : Forall (fun i => exists t, texts !! i = Some t
                      /\ _cache svc !! _hash_text t = None) mi).
  { eapply Forall_impl; [exact Hmiss|]. simpl. intros i (t & _ & Ht & Hc).
    rewrite Nat.sub_0_r in Ht. eauto. }
  destruct (write_cache_overflow _hash_text texts mi new_embeds Hmiss1 0%nat embs svc)
    as [Hres Hcov]; [lia|lia|intros; lia|].
  pose proof (write_cache_keeps _hash_text (_cache svc) texts mi new_embeds Hmiss2
                0%nat embs svc (fun _ _ H => H)) as Hkeep.
  assert (Hdirty : _cache_dirty
            (write_cache _hash_text texts mi 0 new_embeds embs svc).2 = true).
  { destruct new_embeds as [|embed rest]; [simpl in Hlen; lia|].
    destruct mi as [|i0 mi0]; [discriminate|]. simpl.
    apply Forall_cons in Hmiss1 as [[t0 Ht0] _]. rewrite Ht0.
    by apply write_cache_dirty_stays. }
  destruct (write_cache _hash_text texts mi 0 new_embeds embs svc) as [[embs'|e] svc'];
    simpl in *; [discriminate|].
  injection Hres as ->. repeat split; [done|].
  intros t Ht. apply list_elem_of_lookup_1 in Ht as [i Hi].
  destruct (_cache svc !! _hash_text t) as [v|] eqn:Hc.
  - rewrite (Hkeep _ _ Hc). by eexists.
  - destruct (Hcomplete i t Hi Hc) as [j Hj]. simpl in Hj. by eapply Hcov.
Qed.

Lemma embed_texts_extra_rows_witness :
  uncached id (_cache warm_service) [py "b"; py "a"] <> []
  /\ embed_result (embed_texts id overlong_model true warm_service [py "b"; py "a"])
     = Raise IndexError
  /\ _cache_dirty (embed_service (embed_texts id overlong_model true warm_service
                                    [py "b"; py "a"])) = true.
Proof.
  assert (H : uncached id (_cache warm_service) [py "b"; py "a"] <> [])
    by (vm_compute; discriminate).
  split; [exact H|].
  pose proof (embed_texts_extra_rows id overlong_model true warm_service
                [py "b"; py "a"] [[0]; [1]] H eq_refl ltac:(vm_compute; lia)) as Hx.
  exact (conj (proj1 Hx) (proj1 (proj2 Hx))).
Defined.

(** ** The rerankers: backfill and what is mutated *)

Lemma filter_all {A} (P : A -> Prop) `{!forall x, Decision (P x)} (l : list A) :
  (forall x, P x) -> filter P l = l.
Proof.
  intros HP. induction l as [|x l IH]; [done|].
  rewrite filter_cons, decide_True by done. by rewrite IH.
Qed.

(** X14: when the cross-encoder returns no result, the cross-encoder
    reranker backfills everything from the candidates: for [k >= 0] it
    returns the first [k] candidates and changes nothing, exactly as the
    pass-through reranker does. *)
Theorem colbert_backfills_all (eqv : RetrievalResult -> RetrievalResult -> bool)
    (model : str -> list str -> Z -> option (list RankResult))
    (h : nat -> RetrievalResult) (query : str) (candidates : list nat) (top_k : Z) :
  0 <= top_k ->
  model query (map (text_of h) candidates) top_k = Some [] ->
  rerank eqv (ColBERTReranker model) h query candidates top_k
  = Return (take (Z.to_nat top_k) candidates, h)
  /\ rerank eqv (ColBERTReranker model) h query candidates top_k
     = rerank eqv NoOpReranker h query candidates top_k.
Proof.
  intros Hk Hm.
  assert (H : rerank eqv (ColBERTReranker model) h query candidates top_k
              = Return (take (Z.to_nat top_k) candidates, h)).
  { simpl. rewrite Hm. unfold colbert_rerank. simpl.
    change (len []) with 0. rewrite Z.sub_0_r.
    rewrite filter_all by done.
    destruct (0 <? top_k) eqn:E.
    - rewrite slice_to_take by done. by rewrite take_take, Nat.min_id.
    - assert (top_k = 0) as -> by lia. done. }
  split; [done|]. rewrite H. simpl. by rewrite slice_to_take.
Qed.

Lemma colbert_backfills_all_witness :
  0 <= 2
  /\ rerank (fun _ _ => false) (ColBERTReranker silent_cross_encoder) xyz_store
       (py "q") [0; 1; 2]%nat 2
     = Return ([0; 1]%nat, xyz_store).
Proof.
  split; [lia|].
  exact (proj1 (colbert_backfills_all (fun _ _ => false) silent_cross_encoder xyz_store
                  (py "q") [0; 1; 2]%nat 2 ltac:(lia) eq_refl)).
Defined.

Lemma same_but_score_refl (x : RetrievalResult) : same_but_score x x.
Proof. by repeat split. Qed.

Lemma same_but_score_set (h : nat -> RetrievalResult) (item r : nat) (v : MetaVal)
    (x : RetrievalResult) :
  same_but_score x (h r) ->
  same_but_score x (set_meta h item (py "score") v r).
Proof.
  intros (H1 & H2 & H3 & H4 & H5 & H6 & H7). unfold set_meta.
  destruct (Nat.eqb r item); [|by repeat split].
  repeat split; simpl; try done.
  intros key Hkey. rewrite lookup_insert_ne by done. by apply H7.
Qed.

Lemma set_meta_other (h : nat -> RetrievalResult) (item r : nat) (key : str)
    (v : MetaVal) :
  r <> item -> set_meta h item key v r = h r.
Proof. intros Hne. unfold set_meta. by rewrite (proj2 (Nat.eqb_neq r item) Hne). Qed.

Lemma colbert_step_scores (h : nat -> RetrievalResult) (candidates : list nat)
    (passages : list str) (st : RankState) (result : RankResult) :
  (forall r, same_but_score (h r) (store st r)) ->
  (forall r, r ∉ candidates -> store st r = h r) ->
  (forall r, same_but_score (h r) (store (colbert_step candidates passages st result) r))
  /\ (forall r, r ∉ candidates ->
        store (colbert_step candidates passages st result) r = h r).
Proof.
  intros Hs Ho. unfold colbert_step.
  destruct (match rr_result_index result with
            | Some i => Some i
            | None => _
            end) as [index|]; [|done].
  destruct (mapping_get candidates index) as [item|] eqn:Hitem; [|done].
  destruct (_ && _); [done|]. simpl. split.
  - intros r. by apply same_but_score_set.
  - intros r Hr. rewrite set_meta_other; [by apply Ho|].
    intros ->. apply Hr. by eapply mapping_get_elem.
Qed.

Lemma colbert_fold_scores (h : nat -> RetrievalResult) (candidates : list nat)
    (passages : list str) (results : list RankResult) (st : RankState) :
  (forall r, same_but_score (h r) (store st r)) ->
  (forall r, r ∉ candidates -> store st r = h r) ->
  (forall r, same_but_score (h r)
               (store (fold_left (colbert_step candidates passages) results st) r))
  /\ (forall r, r ∉ candidates ->
        store (fold_left (colbert_step candidates passages) results st) r = h r).
Proof.
  revert st. induction results as [|result results IH]; intros st Hs Ho; simpl; [done|].
  destruct (colbert_step_scores h candidates passages st result Hs Ho) as [Hs' Ho'].
  by apply IH.
Qed.

(** X15: reranking mutates nothing but the metadata entry ["score"] of
    candidates: for both variants, every result keeps its [doc_id],
    [chunk_id], text, offsets, [score] field and all other metadata
    entries, and a result that is not a candidate is not touched at all. *)
Theorem rerank_only_sets_score (eqv : RetrievalResult -> RetrievalResult -> bool)
    (rk : Reranker) (h h' : nat -> RetrievalResult) (query : str)
    (candidates out : list nat) (top_k : Z) :
  rerank eqv rk h query candidates top_k = Return (out, h') ->
  (forall r, same_but_score (h r) (h' r))
  /\ (forall r, r ∉ candidates -> h' r = h r).
Proof.
  intros Hr. destruct rk as [|model]; simpl in Hr.
  - injection Hr as <- <-. split; [intros r; apply same_but_score_refl|done].
  - destruct (model query (map (text_of h) candidates) top_k) as [results|];
      [|discriminate].
    unfold colbert_rerank in Hr. injection Hr as _ <-.
    apply colbert_fold_scores; simpl; [intros r; apply same_but_score_refl|done].
Qed.

Lemma rerank_only_sets_score_witness :
  rerank (fun _ _ => false) (ColBERTReranker sample_cross_encoder) xyz_store
    (py "q") [0; 1; 2]%nat 2
  = Return ([2; 0]%nat,
            set_meta (set_meta xyz_store 2 (py "score") (MFloat 9))
              0 (py "score") (MFloat 5))
  /\ chunk_id (chunk (set_meta (set_meta xyz_store 2 (py "score") (MFloat 9))
                        0 (py "score") (MFloat 5) 2%nat))
     = chunk_id (chunk (xyz_store 2%nat)).
Proof.
  split; [reflexivity|].
  pose proof (rerank_only_sets_score (fun _ _ => false)
                (ColBERTReranker sample_cross_encoder) xyz_store _ (py "q")
                [0; 1; 2]%nat [2; 0]%nat 2 eq_refl) as [H _].
  exact (proj1 (proj2 (H 2%nat))).
Defined.

(** ** Retrieval and the index *)

Lemma wrap_hits_lookup (hits : list (Doc * Z)) (rs : list RetrievalResult) :
  wrap_hits hits = Return rs ->
  length rs = length hits
  /\ forall i hit, hits !! i = Some hit ->
       exists r, rs !! i = Some r /\ wrap_hit hit = Return r.
Proof.
  revert rs. induction hits as [|hit hits IH]; intros rs H; simpl in H.
  - injection H as <-. split; [done|]. intros i hit' Hi. by rewrite lookup_nil in Hi.
  - destruct (wrap_hit hit) as [r|e] eqn:Hr; [|discriminate].
    destruct (wrap_hits hits) as [rs'|e]; [|discriminate].
    injection H as <-. destruct (IH rs' eq_refl) as [Hlen Hall].
    split; [simpl; by rewrite Hlen|].
    intros [|i] hit' Hi; simpl in Hi.
    + injection Hi as <-. by exists r.
    + by apply Hall.
Qed.

Lemma wrap_hit_fields (doc : Doc) (s : Z) (r : RetrievalResult) :
  wrap_hit (doc, s) = Return r ->
  chunk_text (chunk r) = page_content doc
  /\ score r = s
  /\ chunk_metadata (chunk r) = <[py "score" := MFloat s]> (doc_metadata doc).
Proof.
  unfold wrap_hit.
  destruct (meta_int _ (py "start_index")) as [a|e]; [|discriminate].
  destruct (meta_int _ (py "end_index")) as [b|e]; [|discriminate].
  intros H. injection H as <-. done.
Qed.

(** X16: when [retrieve] returns, it returns one result per hit of the
    index, in the order of the index (it never re-sorts): result [i] has
    the passage text and the score of hit [i], and the hit's metadata with
    the score written under ["score"]. *)
Theorem retrieve_wraps_hits
    (search : str -> Z -> option (list (Doc * Z))) (top_k : Z) (query : str)
    (rs : list RetrievalResult) :
  retrieve search top_k query = Return rs ->
  exists hits,
    search query top_k = Some hits
    /\ length rs = length hits
    /\ forall i doc s, hits !! i = Some (doc, s) ->
         exists r, rs !! i = Some r
                   /\ chunk_text (chunk r) = page_content doc
                   /\ score r = s
                   /\ chunk_metadata (chunk r)
                      = <[py "score" := MFloat s]> (doc_metadata doc).
Proof.
  unfold retrieve. destruct (search query top_k) as [hits|]; [|discriminate].
  intros H. exists hits. destruct (wrap_hits_lookup hits rs H) as [Hlen Hall].
  repeat split; [done|]. intros i doc s Hi.
  destruct (Hall i _ Hi) as (r & Hr & Hw). exists r. split; [done|].
  by apply wrap_hit_fields.
Qed.

Lemma retrieve_wraps_hits_witness :
  exists rs,
    retrieve sample_index 2 (py "q") = Return rs
    /\ exists hits, sample_index (py "q") 2 = Some hits /\ length rs = length hits.
Proof.
  eexists. split; [reflexivity|].
  destruct (retrieve_wraps_hits sample_index 2 (py "q") _ eq_refl) as (hits & H1 & H2 & _).
  by exists hits.
Defined.

(** X17: a chunk survives the trip through the index: wrapping the document
    that [build_index] stores for a chunk gives back a chunk with the same
    [doc_id], [chunk_id], text and offsets; its metadata is the stored
    record plus the search score. *)
Theorem index_then_retrieve (c : DocumentChunk) (s : Z) :
  wrap_hit (index_document c, s)
  = Return {| chunk := {| chunk_doc_id := chunk_doc_id c;
                          chunk_id := chunk_id c;
                          chunk_text := chunk_text c;
                          start_index := start_index c;
                          end_index := end_index c;
                          chunk_metadata :=
                            <[py "score" := MFloat s]> (doc_metadata (index_document c)) |};
              score := s |}.
Proof.
  unfold wrap_hit, meta_int, meta_str, index_document. simpl.
  repeat (rewrite lookup_insert_ne by (vm_compute; discriminate) || rewrite lookup_insert_eq).
  reflexivity.
Qed.

(** ** The pipeline: failures, contexts and metrics *)

(** X18: an [answer] call that raises records nothing: the metrics table
    is unchanged and [MetricsCollector.record] is never called (the stage
    that raised is the last call made). *)
Theorem answer_failure_records_nothing
    (eqv : RetrievalResult -> RetrievalResult -> bool)
    (w : World) (settings : Settings) (rk : Reranker) (rows : list MetricsRow)
    (query : str) (requested_top_k : option Z) (e : exn) :
  answer_result (answer eqv w settings rk rows query requested_top_k) = Raise e ->
  metrics_rows (answer eqv w settings rk rows query requested_top_k) = rows
  /\ Forall (fun ev => is_record ev = false)
            (events (answer eqv w settings rk rows query requested_top_k)).
Proof.
  unfold answer. destruct (negb (truthy (strip query))); [done|].
  simpl. destruct (retrieve _ _ _) as [results|e'].
  2:{ intros _. split; [done|]. by repeat constructor. }
  destruct (rerank _ _ _ _ _ _) as [[reranked h']|e'].
  2:{ intros _. split; [done|]. destruct (is_colbert rk); by repeat constructor. }
  destruct (generate_answer w query _) as [[txt cites]|]; [discriminate|].
  intros _. split; [done|]. destruct (is_colbert rk); by repeat constructor.
Qed.

Lemma answer_failure_records_nothing_witness :
  answer_result
    (answer (fun _ _ => false) sample_world sample_settings
       (ColBERTReranker (fun _ _ _ => None)) [] (py "why?") None)
  = Raise ExternalError
  /\ metrics_rows
       (answer (fun _ _ => false) sample_world sample_settings
          (ColBERTReranker (fun _ _ _ => None)) [] (py "why?") None) = [].
Proof.
  split; [reflexivity|].
  exact (proj1 (answer_failure_records_nothing (fun _ _ => false) sample_world
                  sample_settings (ColBERTReranker (fun _ _ _ => None)) []
                  (py "why?") None ExternalError eq_refl)).
Defined.



(** X20: [recent(limit)] returns the newest rows first and never more than
    [limit] of them (for a [limit >= 0] that SQLite takes as an integer):
    it has [min(limit, number of rows)] rows, and its [i]-th row is the
    [i]-th row from the end of the table. *)
Theorem recent_newest_first (rows : list MetricsRow) (limit : Z) :
  0 <= limit < 2 ^ 63 ->
  len (recent limit rows) = Z.min limit (len rows)
  /\ forall i : nat, Z.of_nat i < Z.min limit (len rows) ->
       exists row, recent limit rows !! i = Some row
                   /\ rows !! (length rows - 1 - i)%nat = Some row.
Proof.
  intros Hl. unfold recent. destruct (limit <? 0) eqn:E; [lia|].
  assert (Hlen : length (take (Z.to_nat limit) (rev rows))
                 = Nat.min (Z.to_nat limit) (length rows)).
  { by rewrite length_take, length_rev. }
  split; [unfold len; rewrite Hlen; lia|].
  intros i Hi. unfold len in Hi.
  destruct (rows !! (length rows - 1 - i)%nat) as [row|] eqn:Hrow.
  2:{ apply lookup_ge_None in Hrow. lia. }
  exists row. split; [|done].
  rewrite lookup_take_lt by lia.
  rewrite rev_alt. change (rev_append rows []) with (reverse rows).
  rewrite reverse_lookup by lia. rewrite <- Hrow. f_equal. lia.
Qed.

Lemma recent_newest_first_witness :
  0 <= 1 < 2 ^ 63
  /\ len (recent 1 (metrics_rows sample_run)) = Z.min 1 (len (metrics_rows sample_run))
  /\ exists row, recent 1 (metrics_rows sample_run) !! 0%nat = Some row
                 /\ metrics_rows sample_run
                      !! (length (metrics_rows sample_run) - 1 - 0)%nat = Some row.
Proof.
  split; [lia|].
  pose proof (recent_newest_first (metrics_rows sample_run) 1 ltac:(lia)) as (H1 & H2).
  split; [exact H1|]. apply (H2 0%nat). vm_compute. reflexivity.
Defined.

(** ** The pass-through pipeline end to end *)

Lemma annotate_notin (key : str) (items : list nat) (idx : nat)
    (h : nat -> RetrievalResult) (r : nat) :
  r ∉ items -> annotate key idx items h r = h r.
Proof.
  revert idx h. induction items as [|item items IH]; intros idx h Hr; simpl; [done|].
  apply not_elem_of_cons in Hr as [Hne Hr]. rewrite IH by done.
  by apply set_meta_other.
Qed.

Lemma annotate_lookup (key : str) (items : list nat) (idx j : nat)
    (h : nat -> RetrievalResult) (r : nat) :
  NoDup items -> items !! j = Some r ->
  annotate key idx items h r = set_meta h r key (MInt (Z.of_nat (idx + j))) r.
Proof.
  revert idx j h. induction items as [|item items IH]; intros idx j h Hnd Hj; [done|].
  apply NoDup_cons in Hnd as [Hitem Hnd]. simpl. destruct j as [|j]; simpl in Hj.
  - injection Hj as ->. rewrite annotate_notin by done. by rewrite Nat.add_0_r.
  - assert (r <> item).
    { intros ->. apply Hitem. by eapply list_elem_of_lookup_2. }
    rewrite (IH (S idx) j) by done.
    replace (S idx + j)%nat with (idx + S j)%nat by lia.
    unfold set_meta. rewrite Nat.eqb_refl. by rewrite (proj2 (Nat.eqb_neq r item)).
Qed.

Lemma store_of_lookup (results : list RetrievalResult) (i : nat) (x : RetrievalResult) :
  results !! i = Some x -> store_of results i = x.
Proof.
  unfold store_of. revert i. induction results as [|y results IH]; intros [|i] H;
    simpl in *; try done; [by injection H|by apply IH].
Qed.

(** X21: with the pass-through reranker and a final top-K [k >= 0], the
    contexts of a returned answer are the first [k] hits of the index, in
    the order of the index: context [i] has the passage text of hit [i]
    and its metadata, extended with the score and with
    ["retrieval_rank"] and ["rerank_rank"] both equal to [i + 1]. *)
Theorem answer_contexts_passthrough
    (eqv : RetrievalResult -> RetrievalResult -> bool)
    (w : World) (settings : Settings) (rows : list MetricsRow)
    (query : str) (requested_top_k : option Z) (ans : Answer) :
  answer_result (answer eqv w settings NoOpReranker rows query requested_top_k)
  = Return ans ->
  0 <= top_k_or requested_top_k (top_k settings) ->
  exists hits,
    similarity_search_with_score w query
      (Z.max (rerank_top_k settings) (top_k_or requested_top_k (top_k settings)))
    = Some hits
    /\ len (contexts ans)
       = Z.min (top_k_or requested_top_k (top_k settings)) (len hits)
    /\ forall i ctx, contexts ans !! i = Some ctx ->
         exists doc s,
           hits !! i = Some (doc, s)
           /\ ctx_text ctx = page_content doc
           /\ ctx_metadata ctx
              = <[py "rerank_rank" := MInt (Z.of_nat (S i))]>
                  (<[py "retrieval_rank" := MInt (Z.of_nat (S i))]>
                     (<[py "score" := MFloat s]> (doc_metadata doc))).
Proof.
  unfold answer. destruct (negb (truthy (strip query))); [discriminate|].
  simpl. set (k := top_k_or requested_top_k (top_k settings)).
  unfold retrieve.
  destruct (similarity_search_with_score w query _) as [hits|]; [|discriminate].
  destruct (wrap_hits hits) as [results|e] eqn:Hw; [|discriminate].
  destruct (wrap_hits_lookup hits results Hw) as [Hlen Hall].
  set (candidates := seq 0 (length results)).
  set (h1 := annotate (py "retrieval_rank") 1 candidates (store_of results)).
  intros Hans Hk. rewrite slice_to_take in Hans by done.
  set (reranked := take (Z.to_nat k) candidates) in *.
  set (h2 := annotate (py "rerank_rank") 1 reranked h1) in *.
  destruct (generate_answer w query _) as [[txt cites]|]; [|discriminate].
  injection Hans as <-. simpl.
  exists hits. split; [done|].
  assert (Hnd : NoDup candidates) by apply NoDup_seq.
  assert (Hnd' : NoDup reranked).
  { eapply sublist_NoDup; [exact Hnd|apply sublist_take]. }
  split.
  { unfold len. rewrite !length_map. unfold reranked, candidates.
    rewrite length_take, length_seq. lia. }
  intros i ctx Hctx.
  rewrite !lookup_map in Hctx.
  destruct (reranked !! i) as [r|] eqn:Hr; [|discriminate]. simpl in Hctx.
  injection Hctx as <-.
  unfold reranked in Hr. apply lookup_take_Some in Hr as [Hr Hi].
  unfold candidates in Hr. apply lookup_seq in Hr as [-> Hlt]. simpl in *.
  destruct (hits !! i) as [[doc s]|] eqn:Hhit.
  2:{ apply lookup_ge_None in Hhit. lia. }
  destruct (Hall i _ Hhit) as (x & Hx & Hwrap).
  apply wrap_hit_fields in Hwrap as (Htext & _ & Hmeta).
  exists doc, s. split; [done|].
  assert (Hr2 : reranked !! i = Some i).
  { unfold reranked. rewrite lookup_take_lt by done. unfold candidates.
    by rewrite lookup_seq_lt. }
  assert (Hr1 : candidates !! i = Some i).
  { unfold candidates. by rewrite lookup_seq_lt. }
  assert (Hh2 : h2 i = set_meta h1 i (py "rerank_rank") (MInt (Z.of_nat (S i))) i)
    by exact (annotate_lookup _ _ 1 i _ i Hnd' Hr2).
  assert (Hh1 : h1 i = set_meta (store_of results) i (py "retrieval_rank")
                         (MInt (Z.of_nat (S i))) i)
    by exact (annotate_lookup _ _ 1 i _ i Hnd Hr1).
  clearbody h2 h1. rewrite Hh2. unfold set_meta. rewrite Nat.eqb_refl.
  unfold context_item. cbn [ctx_text ctx_metadata chunk chunk_text chunk_metadata].
  rewrite Hh1. unfold set_meta. rewrite Nat.eqb_refl.
  cbn [chunk chunk_text chunk_metadata].
  rewrite (store_of_lookup results i x Hx), Htext, Hmeta. done.
Qed.

Lemma answer_contexts_passthrough_witness :
  answer_result
    (answer (fun _ _ => false) sample_world sample_settings NoOpReranker []
       (py "why?") (Some 2)) = Return sample_answer
  /\ 0 <= top_k_or (Some 2) (top_k sample_settings)
  /\ map ctx_text (contexts sample_answer) = [py "w"; py "x"]
  /\ exists hits,
       sample_index (py "why?") 12 = Some hits
       /\ len (contexts sample_answer) = Z.min 2 (len hits).
Proof.
  split; [reflexivity|]. split; [vm_compute; discriminate|]. split; [reflexivity|].
  destruct (answer_contexts_passthrough (fun _ _ => false) sample_world sample_settings
              [] (py "why?") (Some 2) sample_answer eq_refl
              ltac:(vm_compute; discriminate)) as (hits & H1 & H2 & _).
  by exists hits.
Defined.

(** ** Ingestion *)

Lemma chunk_corpus_length (documents : list RawDocument) (chunk_size overlap : Z) :
  (length documents <= length (chunk_corpus documents chunk_size overlap))%nat.
Proof.
  unfold chunk_corpus. induction documents as [|d ds IH]; simpl; [done|].
  rewrite length_app.
  destruct (chunk_document_final d chunk_size overlap) as [_ ->].
  rewrite length_app. simpl. lia.
Qed.

(** X22: [ingest] never fails with "No chunks produced": every document
    yields at least one chunk, so with documents present it either fails
    in a collaborator (writing the export, building the index) or indexes
    the chunks of [chunk_corpus], at least one per document. *)
Theorem ingest_outcomes (settings : Settings) (documents : list RawDocument)
    (export_ok : bool) (build_index_ok : list DocumentChunk -> bool) :
  ingest settings documents export_ok build_index_ok <> NoChunksProduced
  /\ (ingest settings documents export_ok build_index_ok = NoDocumentsFound
      <-> documents = [])
  /\ forall chunks,
       ingest settings documents export_ok build_index_ok = Ingested chunks ->
       chunks = chunk_corpus documents (chunk_size settings) (chunk_overlap settings)
       /\ (length documents <= length chunks)%nat.
Proof.
  pose proof (chunk_corpus_length documents (chunk_size settings)
                (chunk_overlap settings)) as Hlen.
  unfold ingest. destruct documents as [|d ds]; [by repeat split|].
  set (chunks := chunk_corpus (d :: ds) _ _) in *.
  destruct export_ok; simpl.
  - destruct chunks as [|c cs] eqn:E; [simpl in Hlen; lia|].
    destruct (build_index_ok (c :: cs)).
    + split; [done|]. split; [done|]. intros chunks' Hing. by injection Hing as <-.
    + by repeat split.
  - by repeat split.
Qed.

(** ** Citations *)

Lemma decimal_inj (i j : nat) : decimal i = decimal j -> i = j.
Proof.
  unfold decimal. intros H.
  apply (f_equal chars_uint) in H. rewrite !chars_uint_chars in H.
  rewrite <- (DecimalNat.Unsigned.of_to i), <- (DecimalNat.Unsigned.of_to j).
  by rewrite H.
Qed.

Lemma citations_from_lookup (contexts : list RetrievalResult) (idx i : nat) :
  citations_from idx contexts !! i = citation (idx + i) <$> contexts !! i.
Proof.
  revert idx i. induction contexts as [|r rest IH]; intros idx [|i]; simpl; try done.
  - by rewrite Nat.add_0_r.
  - rewrite IH. by replace (S idx + i)%nat with (idx + S i)%nat by lia.
Qed.

Lemma citations_from_length (contexts : list RetrievalResult) (idx : nat) :
  length (citations_from idx contexts) = length contexts.
Proof. revert idx. induction contexts as [|r rest IH]; intros idx; simpl; by rewrite ?IH. Qed.

Lemma citation_label (idx : nat) (r : RetrievalResult) :
  citation idx r !! py "label" = Some (MStr (py "[" ++ decimal idx ++ py "]")).
Proof.
  unfold citation.
  repeat (rewrite lookup_insert_ne by (vm_compute; discriminate)).
  by rewrite lookup_insert_eq.
Qed.

(** X23: the citations are derived from the contexts alone: there is one
    citation per context, in order; citation [i] (from 0) has the label
    ["[i+1]"], the context's [doc_id] and [chunk_id], and as excerpt the
    first 200 characters at most of the stripped passage text; no two
    citations have the same label. *)
Theorem citations_mirror_contexts (contexts : list RetrievalResult) :
  length (build_citations contexts) = length contexts
  /\ (forall i c, build_citations contexts !! i = Some c ->
        exists r e,
          contexts !! i = Some r
          /\ c !! py "label" = Some (MStr (py "[" ++ decimal (S i) ++ py "]"))
          /\ c !! py "doc_id" = Some (MStr (chunk_doc_id (chunk r)))
          /\ c !! py "chunk_id" = Some (MStr (chunk_id (chunk r)))
          /\ c !! py "excerpt" = Some (MStr e)
          /\ len e <= 200
          /\ exists rest, strip (chunk_text (chunk r)) = e ++ rest)
  /\ (forall i j ci cj, i <> j ->
        build_citations contexts !! i = Some ci ->
        build_citations contexts !! j = Some cj ->
        ci !! py "label" <> cj !! py "label").
Proof.
  unfold build_citations. split; [apply citations_from_length|]. split.
  - intros i c Hc. rewrite citations_from_lookup in Hc.
    destruct (contexts !! i) as [r|]; [|discriminate]. simpl in Hc. injection Hc as <-.
    exists r, (take 200 (strip (chunk_text (chunk r)))).
    split; [done|]. split; [apply citation_label|].
    unfold citation.
    repeat split;
      try (repeat (rewrite lookup_insert_ne by (vm_compute; discriminate));
           by rewrite lookup_insert_eq).
    + unfold len. rewrite length_take. lia.
    + exists (drop 200 (strip (chunk_text (chunk r)))). by rewrite take_drop.
  - intros i j ci cj Hij Hi Hj. rewrite citations_from_lookup in Hi, Hj.
    destruct (contexts !! i) as [ri|]; [|discriminate].
    destruct (contexts !! j) as [rj|]; [|discriminate].
    simpl in Hi, Hj. injection Hi as <-. injection Hj as <-.
    rewrite !citation_label. intros Heq. injection Heq as Heq.
    apply app_inv_tail, decimal_inj in Heq. lia.
Qed.

(** ** Failure cases in the evaluation *)

Lemma gt_in_all_empty (ground_truths : list str) (context : str) :
  (forall gt, gt ∈ ground_truths -> gt = []) -> gt_in ground_truths context = false.
Proof.
  intros Hall. unfold gt_in. induction ground_truths as [|gt gts IH]; simpl; [done|].
  rewrite (Hall gt) by left. simpl. apply IH. intros gt' Hgt'. apply Hall. by right.
Qed.

Lemma first_hit_spec (ground_truths : list str) (raw_texts : list str) (start rank : nat) :
  first_hit ground_truths start raw_texts = Some rank ->
  (start <= rank < start + length raw_texts)%nat
  /\ (exists c, raw_texts !! (rank - start)%nat = Some c /\ gt_in ground_truths c = true)
  /\ forall j c, (j < rank - start)%nat -> raw_texts !! j = Some c ->
                 gt_in ground_truths c = false.
Proof.
  revert start. induction raw_texts as [|c rest IH]; intros start H; simpl in H;
    [discriminate|].
  destruct (gt_in ground_truths c) eqn:Hc.
  - injection H as <-. simpl. split; [lia|]. rewrite Nat.sub_diag. split.
    + by exists c.
    + intros j c' Hj. lia.
  - destruct (IH (S start) H) as (Hr & (c' & Hc' & Hin) & Hbefore).
    simpl. split; [lia|]. split.
    + exists c'. split; [|done].
      replace (rank - start)%nat with (S (rank - S start)) by lia. done.
    + intros [|j] c'' Hj Hl; simpl in Hl.
      * by injection Hl as <-.
      * apply (Hbefore j); [lia|done].
Qed.

(** X24: how [evaluate_dataset] files a sample.  A sample with no
    ground truth, or only empty ones, is always a retrieval error,
    whatever was retrieved and answered.  The [hit_rank] of a rerank error
    is the rank, counted from 1, of the first retrieved text that contains
    a ground truth, and then no context of the answer contains one.  A
    sample is no failure case exactly when a retrieved text, a context of
    the answer and the answer itself each contain a ground truth. *)
Theorem failure_case_spec (ground_truths raw_texts final_texts : list str)
    (answer_text : str) :
  ((forall gt, gt ∈ ground_truths -> gt = []) ->
   failure_case ground_truths raw_texts final_texts answer_text = Some RetrievalError)
  /\ (forall rank,
        failure_case ground_truths raw_texts final_texts answer_text
        = Some (RerankError rank) ->
        (1 <= rank <= length raw_texts)%nat
        /\ (exists c, raw_texts !! (rank - 1)%nat = Some c
                      /\ gt_in ground_truths c = true)
        /\ (forall j c, (j < rank - 1)%nat -> raw_texts !! j = Some c ->
                        gt_in ground_truths c = false)
        /\ existsb (gt_in ground_truths) final_texts = false)
  /\ (failure_case ground_truths raw_texts final_texts answer_text = None
      <-> existsb (gt_in ground_truths) raw_texts = true
          /\ existsb (gt_in ground_truths) final_texts = true
          /\ gt_in ground_truths answer_text = true).
Proof.
  unfold failure_case. split; [|split].
  - intros Hall.
    assert (Hnone : forall start, first_hit ground_truths start raw_texts = None).
    { induction raw_texts as [|c rest IH]; intros start; simpl; [done|].
      by rewrite gt_in_all_empty. }
    by rewrite Hnone.
  - intros rank H.
    destruct (first_hit ground_truths 1 raw_texts) as [r|] eqn:Hf; [|discriminate].
    destruct (existsb (gt_in ground_truths) final_texts) eqn:Hfinal; simpl in H.
    + destruct (gt_in ground_truths answer_text); discriminate.
    + injection H as <-.
      destruct (first_hit_spec _ _ _ _ Hf) as (Hr & Hc & Hb).
      repeat split; [lia|lia|done|done].
  - assert (Hraw : forall start,
              first_hit ground_truths start raw_texts = None
              <-> existsb (gt_in ground_truths) raw_texts = false).
    { induction raw_texts as [|c rest IH]; intros start; simpl; [done|].
      destruct (gt_in ground_truths c); simpl; [split; discriminate|apply IH]. }
    destruct (first_hit ground_truths 1 raw_texts) as [r|] eqn:Hf.
    + assert (existsb (gt_in ground_truths) raw_texts = true) as ->.
      { apply not_false_iff_true. intros E. apply (Hraw 1%nat) in E. congruence. }
      destruct (existsb (gt_in ground_truths) final_texts); simpl.
      * destruct (gt_in ground_truths answer_text); simpl; split; try done.
        intros (_ & _ & ?). discriminate.
      * split; [discriminate|]. intros (_ & ? & _). discriminate.
    + apply (Hraw 1%nat) in Hf. rewrite Hf. split; [discriminate|].
      intros (? & _). discriminate.
Qed.

(** ** Chunk sizes *)

Lemma fits_more (chunk_size overlap : Z) (processed more : list str) (n : Z) :
  fits chunk_size overlap processed n -> fits chunk_size overlap (processed ++ more) n.
Proof.
  intros [H|(s & Hs & H)]; [by left|]. right. exists s. split; [|done].
  apply elem_of_app. by left.
Qed.

Lemma fits_le (chunk_size overlap : Z) (processed : list str) (n m : Z) :
  m <= n -> fits chunk_size overlap processed n -> fits chunk_size overlap processed m.
Proof.
  intros Hle [H|(s & Hs & H)]; [left; lia|]. right. exists s. split; [done|lia].
Qed.

Lemma size_inv_step (document : RawDocument) (chunk_size overlap : Z)
    (processed : list str) (st : ChunkState) (sentence : str) :
  0 <= overlap ->
  chunk_inv document st ->
  size_inv chunk_size overlap processed st ->
  size_inv chunk_size overlap (processed ++ [sentence])
    (chunk_step document chunk_size overlap st sentence).
Proof.
  intros Ho Hinv [Hw Hc].
  assert (Hold : Forall (fun c => fits chunk_size overlap (processed ++ [sentence])
                                    (len (chunk_text c))) (chunks st)).
  { eapply Forall_impl; [exact Hc|]. simpl. intros c. apply fits_more. }
  assert (Hin : sentence ∈ processed ++ [sentence]) by (apply elem_of_app; right; left).
  pose proof (len_nonneg sentence) as Hs.
  pose proof (inv_length _ _ Hinv) as Hlen.
  unfold chunk_step.
  destruct (chunk_size <? current_length st + len sentence) eqn:Hcmp; simpl.
  - case_bool_decide as Hcc; simpl.
    + constructor; simpl; [|done]. right. rewrite Hcc. simpl.
      right. exists sentence. split; [done|lia].
    + pose proof (shrink_bound overlap (current_chunk st) Ho) as Hb.
      rewrite <- Hlen in Hb.
      destruct (shrink overlap (current_chunk st) (current_length st)) as [kept cl'].
      simpl in Hb. constructor; simpl.
      * right. rewrite sum_len_app. simpl. right. exists sentence. split; [done|lia].
      * apply Forall_app. split; [done|]. constructor; [|constructor].
        destruct Hw as [Hnil|Hfit]; [done|]. simpl.
        apply fits_more. eapply fits_le; [|exact Hfit].
        pose proof (strip_len (concat (current_chunk st))) as Hst.
        by rewrite len_concat in Hst.
  - constructor; simpl; [|done]. right. rewrite sum_len_app. simpl. left. lia.
Qed.

Lemma size_inv_fold (document : RawDocument) (chunk_size overlap : Z)
    (sentences processed : list str) (st : ChunkState) :
  0 <= overlap ->
  chunk_inv document st ->
  size_inv chunk_size overlap processed st ->
  size_inv chunk_size overlap (processed ++ sentences)
    (fold_left (chunk_step document chunk_size overlap) sentences st).
Proof.
  intros Ho. revert processed st.
  induction sentences as [|s sentences IH]; intros processed st Hinv Hsize.
  - by rewrite app_nil_r.
  - simpl. replace (processed ++ s :: sentences) with ((processed ++ [s]) ++ sentences)
      by (by rewrite <- app_assoc).
    apply IH; [by apply chunk_step_inv|by apply size_inv_step].
Qed.

(** X7: with [overlap >= 0], a chunk is longer than [chunk_size] only
    because of one long sentence: the text of every chunk has at most
    [chunk_size] characters, or at most [overlap] characters more than
    some sentence of the document. *)
Theorem chunk_document_size (document : RawDocument) (chunk_size overlap : Z)
    (c : DocumentChunk) :
  0 <= overlap ->
  c ∈ chunk_document document chunk_size overlap ->
  len (chunk_text c) <= chunk_size
  \/ exists s, s ∈ _split_sentences (text document)
               /\ len (chunk_text c) <= overlap + len s.
Proof.
  intros Ho Hc.
  destruct (chunk_document_final document chunk_size overlap) as [Hw Heq].
  rewrite Heq in Hc.
  assert (Hinit : size_inv chunk_size overlap [] chunk_init).
  { constructor; simpl; [by left|constructor]. }
  destruct (size_inv_fold document chunk_size overlap
              (_split_sentences (text document)) [] chunk_init Ho
              (chunk_init_inv document) Hinit) as [Hwin Hch].
  simpl in Hwin, Hch.
  apply elem_of_app in Hc as [Hc|Hc].
  - rewrite Forall_forall in Hch. by apply Hch.
  - apply list_elem_of_singleton in Hc as ->.
    destruct Hwin as [Hnil|Hfit]; [done|]. simpl.
    eapply fits_le; [|exact Hfit].
    pose proof (strip_len (concat (current_chunk
      (fold_left (chunk_step document chunk_size overlap)
         (_split_sentences (text document)) chunk_init)))) as Hst.
    by rewrite len_concat in Hst.
Qed.

Lemma chunk_document_size_witness :
  0 <= 2
  /\ first_weather_chunk ∈ chunk_document (weather_doc (py "doc") ∅) 3 2
  /\ (len (chunk_text first_weather_chunk) <= 3
      \/ exists s, s ∈ _split_sentences weather_text
                   /\ len (chunk_text first_weather_chunk) <= 2 + len s).
Proof.
  assert (H : first_weather_chunk ∈ chunk_document (weather_doc (py "doc") ∅) 3 2)
    by (vm_compute; left).
  split; [lia|]. split; [exact H|].
  apply (chunk_document_size (weather_doc (py "doc") ∅) 3 2 first_weather_chunk);
    [lia|exact H].
Defined.
